(** * Client-side interceptor chaining for DRPC connections

    A shallow embedding of the two interceptor packages of the repository:

    - package [drcpclient] (clientconn.go and its dial options), and
    - packages [drcpclientconn] / [drpcinterceptors], a second variant of
      the same wrapper, which compiles the chains when the wrapper is built.

    Go functions with effects are functions into the monad [M]: a state
    monad over [World] whose computations either return or panic. *)

From Stdlib Require Import String List Arith Lia.
Import ListNotations.
Open Scope string_scope.
Open Scope list_scope.

Set Implicit Arguments.

(** ** Values that come from outside the packages *)

(** The types the packages only pass around: [context.Context],
    [drpc.Encoding], [drpc.Message], [drpc.Stream], non-nil [error] values,
    interface values of type [drpc.Conn] (the nil interface included), and
    whatever else of the process and the network a call can read or write. *)
Class GoTypes : Type := {
  context_Context : Type;
  drpc_Encoding : Type;
  drpc_Message : Type;
  drpc_Stream : Type;
  Err : Type;
  drpc_Conn : Type;
  Ext : Type
}.

Section Runtime.
Context {T : GoTypes}.

(** A Go [error]: nil or a non-nil value. *)
Definition error : Type := option Err.

(** The state a call runs in. [interceptorCalls] is the slice the callers'
    recording interceptors append to; [ext] is everything else. *)
Record World : Type := {
  interceptorCalls : list string;
  ext : Ext
}.

Definition record_call (s : string) (w : World) : World :=
  {| interceptorCalls := interceptorCalls w ++ [s]; ext := ext w |}.

Definition record_calls (l : list string) (w : World) : World :=
  {| interceptorCalls := interceptorCalls w ++ l; ext := ext w |}.

(** Run-time panics. *)
Inductive panic : Type :=
| index_out_of_range (index length : nat)
| nil_dereference
| raised (msg : string).

Inductive outcome (A : Type) : Type :=
| Returned (a : A) (w : World)
| Panicked (p : panic) (w : World).

Arguments Returned {A} a w.
Arguments Panicked {A} p w.

Definition M (A : Type) : Type := World -> outcome A.

Definition ret {A} (a : A) : M A := fun w => Returned a w.

Definition bind {A B} (m : M A) (k : A -> M B) : M B :=
  fun w =>
    match m w with
    | Returned a w' => k a w'
    | Panicked p w' => Panicked p w'
    end.

Definition throw {A} (p : panic) : M A := fun w => Panicked p w.

Definition modify (f : World -> World) : M unit := fun w => Returned tt (f w).

(** Indexing a slice: [l[i]], which panics out of range. *)
Definition index {A} (l : list A) (i : nat) : panic + A :=
  match nth_error l i with
  | Some a => inr a
  | None => inl (index_out_of_range i (length l))
  end.
End Runtime.

Arguments Returned {T A} a w.
Arguments Panicked {T A} p w.

Declare Scope go_scope.
Delimit Scope go_scope with go.
Notation "x <- m ;; k" := (bind m (fun x => k))
  (at level 61, m at next level, right associativity) : go_scope.
Notation "m ;;; k" := (bind m (fun _ => k))
  (at level 61, right associativity) : go_scope.
Open Scope go_scope.

(** The [drpc.Conn] interface, as the packages use it: dynamic dispatch of
    [Invoke] and [NewStream], and of the interface's other methods, whose
    names and signatures are kept as parameters. *)
Class DrpcConn {T : GoTypes} : Type := {
  is_nil : drpc_Conn -> bool;
  drpc_Conn_Invoke :
    drpc_Conn -> context_Context -> string -> drpc_Encoding ->
    drpc_Message -> drpc_Message -> M error;
  drpc_Conn_NewStream :
    drpc_Conn -> context_Context -> string -> drpc_Encoding ->
    M (drpc_Stream * error);
  ConnMethod : Type;
  ConnMethodSig : ConnMethod -> Type;
  drpc_Conn_method : forall m : ConnMethod, drpc_Conn -> ConnMethodSig m
}.

Section Dispatch.
Context {T : GoTypes} {D : DrpcConn}.

(** The call [x.Invoke(ctx, rpc, enc, in, out)] on an interface value. *)
Definition call_Invoke (x : drpc_Conn) ctx rpc enc (i o : drpc_Message)
  : M error :=
  if is_nil x then throw nil_dereference
  else drpc_Conn_Invoke x ctx rpc enc i o.

(** The call [x.NewStream(ctx, rpc, enc)] on an interface value. *)
Definition call_NewStream (x : drpc_Conn) ctx rpc enc
  : M (drpc_Stream * error) :=
  if is_nil x then throw nil_dereference
  else drpc_Conn_NewStream x ctx rpc enc.

(** Selectors of a value that implements [drpc.Conn]. *)
Inductive selector : Type :=
| sel_Invoke
| sel_NewStream
| sel_method (m : ConnMethod).

Definition selector_sig (s : selector) : Type :=
  match s with
  | sel_Invoke =>
      context_Context -> string -> drpc_Encoding ->
      drpc_Message -> drpc_Message -> M error
  | sel_NewStream =>
      context_Context -> string -> drpc_Encoding -> M (drpc_Stream * error)
  | sel_method m => ConnMethodSig m
  end.

(** Selecting a method of the interface value [x]. *)
Definition drpc_Conn_select (x : drpc_Conn) (s : selector) : selector_sig s :=
  match s with
  | sel_Invoke => call_Invoke x
  | sel_NewStream => call_NewStream x
  | sel_method m => drpc_Conn_method m x
  end.
End Dispatch.

(** ** Package drcpclient *)

Module drcpclient.
Section Package.
Context {T : GoTypes} {D : DrpcConn}.

Definition UnaryInvoker : Type :=
  context_Context -> string -> drpc_Encoding ->
  drpc_Message -> drpc_Message -> M error.

Definition UnaryClientInterceptor : Type :=
  context_Context -> string -> drpc_Encoding ->
  drpc_Message -> drpc_Message -> drpc_Conn -> UnaryInvoker -> M error.

Definition Streamer : Type :=
  context_Context -> string -> drpc_Encoding -> M (drpc_Stream * error).

Definition StreamClientInterceptor : Type :=
  context_Context -> string -> drpc_Encoding ->
  drpc_Conn -> Streamer -> M (drpc_Stream * error).

(** A nil func field is [None]. *)
Record DialOptions : Type := {
  chainedUnaryInt : option UnaryClientInterceptor;
  unaryInts : list UnaryClientInterceptor;
  chainedStreamInt : option StreamClientInterceptor;
  streamInts : list StreamClientInterceptor
}.

(** [&DialOptions{}] *)
Definition zero_DialOptions : DialOptions :=
  {| chainedUnaryInt := None; unaryInts := [];
     chainedStreamInt := None; streamInts := [] |}.

(** A [DialOption] mutates the options it is handed. The options the
    package exports only append to a slice; an option is kept as its effect
    on the options, which is all the statements below use of it. *)
Definition DialOption : Type := DialOptions -> DialOptions.

Definition WithChainUnaryInterceptor (ints : list UnaryClientInterceptor)
  : DialOption :=
  fun opt =>
    {| chainedUnaryInt := chainedUnaryInt opt;
       unaryInts := unaryInts opt ++ ints;
       chainedStreamInt := chainedStreamInt opt;
       streamInts := streamInts opt |}.

Definition WithChainStreamInterceptor (ints : list StreamClientInterceptor)
  : DialOption :=
  fun opt =>
    {| chainedUnaryInt := chainedUnaryInt opt;
       unaryInts := unaryInts opt;
       chainedStreamInt := chainedStreamInt opt;
       streamInts := streamInts opt ++ ints |}.

(** The loop [for i := n - 1; i >= 0; i--] of the unary chain, entered
    with [i + 1 = k]: each turn reads [d.unaryInts[i]] and wraps the
    continuation built so far. *)
Fixpoint unary_loop (ints : list UnaryClientInterceptor) (conn : drpc_Conn)
    (k : nat) (chained : UnaryInvoker) : panic + UnaryInvoker :=
  match k with
  | 0 => inr chained
  | S i =>
      let next := chained in
      match index ints i with
      | inl p => inl p
      | inr interceptor =>
          unary_loop ints conn i
            (fun ctx rpc enc i o => interceptor ctx rpc enc i o conn next)
      end
  end.

(** The same loop of the stream chain, reading [d.streamInts[i]]. *)
Fixpoint stream_loop (ints : list StreamClientInterceptor) (conn : drpc_Conn)
    (k : nat) (chained : Streamer) : panic + Streamer :=
  match k with
  | 0 => inr chained
  | S i =>
      let next := chained in
      match index ints i with
      | inl p => inl p
      | inr interceptor =>
          stream_loop ints conn i
            (fun ctx rpc enc => interceptor ctx rpc enc conn next)
      end
  end.

(** [chainUnaryClientInterceptors]: the field is assigned a closure for
    every [n]. The closure reads [d.unaryInts] when it is called; nothing
    writes that field once the options are built. *)
Definition chainUnaryClientInterceptors (d : DialOptions) : DialOptions :=
  let n := length (unaryInts d) in
  {| chainedUnaryInt :=
       Some (fun ctx rpc enc i o conn invoker =>
               match unary_loop (unaryInts d) conn n invoker with
               | inl p => throw p
               | inr chained => chained ctx rpc enc i o
               end);
     unaryInts := unaryInts d;
     chainedStreamInt := chainedStreamInt d;
     streamInts := streamInts d |}.

(** [chainStreamClientInterceptors]: the bound [n] is [len(d.unaryInts)],
    the slice indexed is [d.streamInts]. *)
Definition chainStreamClientInterceptors (d : DialOptions) : DialOptions :=
  let n := length (unaryInts d) in
  {| chainedUnaryInt := chainedUnaryInt d;
     unaryInts := unaryInts d;
     chainedStreamInt :=
       Some (fun ctx rpc enc conn streamer =>
               match stream_loop (streamInts d) conn n streamer with
               | inl p => throw p
               | inr chained => chained ctx rpc enc
               end);
     streamInts := streamInts d |}.

Definition apply_options (opts : list DialOption) (d : DialOptions)
  : DialOptions :=
  fold_left (fun options opt => opt options) opts d.

Definition newDialOptions (opts : list DialOption) : DialOptions :=
  let options := apply_options opts zero_DialOptions in
  let options := chainUnaryClientInterceptors options in
  let options := chainStreamClientInterceptors options in
  options.

(** [dopts] is a pointer in the source; the record holds what it points
    to, which no function of the package writes after [newDialOptions]. *)
Record ClientConn : Type := {
  Conn : drpc_Conn;
  dopts : DialOptions
}.

(** The conversion of a [ClientConn] value to the interface [drpc.Conn],
    which Go performs where [c] is passed as the connection handle. *)
Class AsConn : Type := as_drpc_Conn : ClientConn -> drpc_Conn.
Context {W : AsConn}.

Definition NewClientConnWithOptions (ctx : context_Context)
    (dialer : context_Context -> M (drpc_Conn * error))
    (dialOpts : list DialOption) : M (option ClientConn * error) :=
  r <- dialer ctx ;;
  let (conn, err) := r in
  match err with
  | Some e => ret (None, Some e)
  | None =>
      let dopts := newDialOptions dialOpts in
      let clientConn := {| Conn := conn; dopts := dopts |} in
      ret (Some clientConn, None)
  end.

(** [invoker := c.Conn.Invoke] is a method value: it is evaluated, and
    panics on a nil interface, before the chain is entered. *)
Definition Invoke (c : ClientConn) ctx rpc enc (i o : drpc_Message)
  : M error :=
  if is_nil (Conn c) then throw nil_dereference
  else
    let invoker := drpc_Conn_Invoke (Conn c) in
    match chainedUnaryInt (dopts c) with
    | Some chainedUnaryInt =>
        chainedUnaryInt ctx rpc enc i o (as_drpc_Conn c) invoker
    | None => invoker ctx rpc enc i o
    end.

Definition NewStream (c : ClientConn) ctx rpc enc
  : M (drpc_Stream * error) :=
  if is_nil (Conn c) then throw nil_dereference
  else
    let streamer := drpc_Conn_NewStream (Conn c) in
    match chainedStreamInt (dopts c) with
    | Some chainedStreamInt =>
        chainedStreamInt ctx rpc enc (as_drpc_Conn c) streamer
    | None => streamer ctx rpc enc
    end.

(** The methods [ClientConn] declares itself: [Invoke] and [NewStream]. *)
Definition declared (c : ClientConn) (s : selector)
  : option (selector_sig s) :=
  match s with
  | sel_Invoke => Some (Invoke c)
  | sel_NewStream => Some (NewStream c)
  | sel_method _ => None
  end.

(** The method set of [ClientConn]: a declared method shadows the one
    promoted from the embedded [drpc.Conn]; every other selector resolves
    to the embedded field. *)
Definition select (c : ClientConn) (s : selector) : selector_sig s :=
  match declared c s with
  | Some f => f
  | None => drpc_Conn_select (Conn c) s
  end.
End Package.

(** *** Interceptors of the package's test, and the chain as a fold *)

Section Observers.
Context {T : GoTypes}.

(** The test's [interceptor1] and [interceptor2], for any name: append
    [name_before], call the invoker, append [name_after], return its
    error. *)
Definition recording (name : string) : UnaryClientInterceptor :=
  fun ctx method enc i o conn invoker =>
    modify (record_call (name ++ "_before")%string) ;;;
    err <- invoker ctx method enc i o ;;
    modify (record_call (name ++ "_after")%string) ;;;
    ret err.

(** A stream interceptor that records its entry and opens the stream
    through the streamer it is given. *)
Definition entering (name : string) : StreamClientInterceptor :=
  fun ctx rpc enc conn streamer =>
    modify (record_call name) ;;;
    streamer ctx rpc enc.

(** The composition the chain is meant to build: a right fold in which
    each interceptor receives the same handle and, as [next], the
    composition of the interceptors after it. *)
Definition nest_unary (conn : drpc_Conn) (ints : list UnaryClientInterceptor)
    (terminal : UnaryInvoker) : UnaryInvoker :=
  fold_right
    (fun interceptor next =>
       fun ctx rpc enc i o => interceptor ctx rpc enc i o conn next)
    terminal ints.

Definition nest_stream (conn : drpc_Conn) (ints : list StreamClientInterceptor)
    (terminal : Streamer) : Streamer :=
  fold_right
    (fun interceptor next =>
       fun ctx rpc enc => interceptor ctx rpc enc conn next)
    terminal ints.

(** An invoker that fails with [E] wherever it is called. *)
Definition fails_with (E : Err) (next : UnaryInvoker) : Prop :=
  forall ctx rpc enc i o w,
    exists w', next ctx rpc enc i o w = Returned (Some E) w'.

Definition stream_fails_with (E : Err) (next : Streamer) : Prop :=
  forall ctx rpc enc w,
    exists st w', next ctx rpc enc w = Returned (st, Some E) w'.

(** An interceptor that propagates the error of its continuation. *)
Definition propagates (interceptor : UnaryClientInterceptor) : Prop :=
  forall (E : Err) (next : UnaryInvoker),
    fails_with E next ->
    forall conn, fails_with E (fun ctx rpc enc i o =>
                                 interceptor ctx rpc enc i o conn next).

Definition stream_propagates (interceptor : StreamClientInterceptor) : Prop :=
  forall (E : Err) (next : Streamer),
    stream_fails_with E next ->
    forall conn, stream_fails_with E (fun ctx rpc enc =>
                                        interceptor ctx rpc enc conn next).
End Observers.
End drcpclient.

(** ** Package drpcinterceptors *)

Module drpcinterceptors.
Section Package.
Context {T : GoTypes}.

Definition UnaryInvoker : Type :=
  context_Context -> string -> drpc_Message -> drpc_Message ->
  drpc_Encoding -> M error.

Definition UnaryClientInterceptor : Type :=
  context_Context -> string -> drpc_Message -> drpc_Message ->
  drpc_Conn -> drpc_Encoding -> UnaryInvoker -> M error.

Definition Streamer : Type :=
  context_Context -> string -> M (drpc_Stream * error).

Definition StreamClientInterceptor : Type :=
  context_Context -> string -> drpc_Conn -> Streamer ->
  M (drpc_Stream * error).

Record DialOptions : Type := {
  UnaryInt : option UnaryClientInterceptor;
  unaryInts : list UnaryClientInterceptor;
  StreamInt : option StreamClientInterceptor;
  streamInts : list StreamClientInterceptor
}.

Definition zero_DialOptions : DialOptions :=
  {| UnaryInt := None; unaryInts := [];
     StreamInt := None; streamInts := [] |}.

Definition DialOption : Type := DialOptions -> DialOptions.

Definition WithChainUnaryInterceptor (ints : list UnaryClientInterceptor)
  : DialOption :=
  fun opt =>
    {| UnaryInt := UnaryInt opt;
       unaryInts := unaryInts opt ++ ints;
       StreamInt := StreamInt opt;
       streamInts := streamInts opt |}.

Definition WithChainStreamInterceptor (ints : list StreamClientInterceptor)
  : DialOption :=
  fun opt =>
    {| UnaryInt := UnaryInt opt;
       unaryInts := unaryInts opt;
       StreamInt := StreamInt opt;
       streamInts := streamInts opt ++ ints |}.

Definition apply_options (opts : list DialOption) (d : DialOptions)
  : DialOptions :=
  fold_left (fun options opt => opt options) opts d.

(** [NewDialOptions] applies the options and returns: it calls neither
    chaining method. *)
Definition NewDialOptions (opts : list DialOption) : DialOptions :=
  apply_options opts zero_DialOptions.

Fixpoint unary_loop (ints : list UnaryClientInterceptor) (conn : drpc_Conn)
    (k : nat) (chained : UnaryInvoker) : panic + UnaryInvoker :=
  match k with
  | 0 => inr chained
  | S i =>
      let next := chained in
      match index ints i with
      | inl p => inl p
      | inr interceptor =>
          unary_loop ints conn i
            (fun ctx method i o enc =>
               interceptor ctx method i o conn enc next)
      end
  end.

Fixpoint stream_loop (ints : list StreamClientInterceptor) (conn : drpc_Conn)
    (k : nat) (chained : Streamer) : panic + Streamer :=
  match k with
  | 0 => inr chained
  | S i =>
      let next := chained in
      match index ints i with
      | inl p => inl p
      | inr interceptor =>
          stream_loop ints conn i
            (fun ctx method => interceptor ctx method conn next)
      end
  end.

(** [ChainUnaryClientInterceptors]: the [switch] on [len(d.unaryInts)];
    case 1 takes [d.unaryInts[0]]. *)
Definition ChainUnaryClientInterceptors (d : DialOptions) : DialOptions :=
  let n := length (unaryInts d) in
  {| UnaryInt :=
       match unaryInts d with
       | [] => None
       | [only] => Some only
       | _ :: _ :: _ =>
           Some (fun ctx method i o conn enc invoker =>
                   match unary_loop (unaryInts d) conn n invoker with
                   | inl p => throw p
                   | inr chained => chained ctx method i o enc
                   end)
       end;
     unaryInts := unaryInts d;
     StreamInt := StreamInt d;
     streamInts := streamInts d |}.

Definition ChainStreamClientInterceptors (d : DialOptions) : DialOptions :=
  let n := length (streamInts d) in
  {| UnaryInt := UnaryInt d;
     unaryInts := unaryInts d;
     StreamInt :=
       match streamInts d with
       | [] => None
       | [only] => Some only
       | _ :: _ :: _ =>
           Some (fun ctx method conn streamer =>
                   match stream_loop (streamInts d) conn n streamer with
                   | inl p => throw p
                   | inr chained => chained ctx method
                   end)
       end;
     streamInts := streamInts d |}.
End Package.

(** *** Interceptors of the package's test, and the chain as a fold *)

Section Observers.
Context {T : GoTypes}.

Definition recording (name : string) : UnaryClientInterceptor :=
  fun ctx method i o conn enc invoker =>
    modify (record_call (name ++ "_before")%string) ;;;
    err <- invoker ctx method i o enc ;;
    modify (record_call (name ++ "_after")%string) ;;;
    ret err.

Definition entering (name : string) : StreamClientInterceptor :=
  fun ctx method conn streamer =>
    modify (record_call name) ;;;
    streamer ctx method.

Definition nest_unary (conn : drpc_Conn) (ints : list UnaryClientInterceptor)
    (terminal : UnaryInvoker) : UnaryInvoker :=
  fold_right
    (fun interceptor next =>
       fun ctx method i o enc => interceptor ctx method i o conn enc next)
    terminal ints.

Definition nest_stream (conn : drpc_Conn) (ints : list StreamClientInterceptor)
    (terminal : Streamer) : Streamer :=
  fold_right
    (fun interceptor next =>
       fun ctx method => interceptor ctx method conn next)
    terminal ints.

Definition fails_with (E : Err) (next : UnaryInvoker) : Prop :=
  forall ctx method i o enc w,
    exists w', next ctx method i o enc w = Returned (Some E) w'.

Definition stream_fails_with (E : Err) (next : Streamer) : Prop :=
  forall ctx method w,
    exists st w', next ctx method w = Returned (st, Some E) w'.

Definition propagates (interceptor : UnaryClientInterceptor) : Prop :=
  forall (E : Err) (next : UnaryInvoker),
    fails_with E next ->
    forall conn, fails_with E (fun ctx method i o enc =>
                                 interceptor ctx method i o conn enc next).

Definition stream_propagates (interceptor : StreamClientInterceptor) : Prop :=
  forall (E : Err) (next : Streamer),
    stream_fails_with E next ->
    forall conn, stream_fails_with E (fun ctx method =>
                                        interceptor ctx method conn next).
End Observers.
End drpcinterceptors.

(** ** Package drcpclientconn *)

Module drcpclientconn.
Section Package.
Context {T : GoTypes} {D : DrpcConn}.

(** [dopts] is held by value. *)
Record ClientConn : Type := {
  Conn : drpc_Conn;
  dopts : drpcinterceptors.DialOptions
}.

Class AsConn : Type := as_drpc_Conn : ClientConn -> drpc_Conn.
Context {W : AsConn}.

Definition initInterceptors (c : ClientConn) : ClientConn :=
  let d := drpcinterceptors.ChainUnaryClientInterceptors (dopts c) in
  let d := drpcinterceptors.ChainStreamClientInterceptors d in
  {| Conn := Conn c; dopts := d |}.

Definition NewClientConnWithOptions (dopts : drpcinterceptors.DialOptions)
    (connSupplier : M (drpc_Conn * error)) : M (option ClientConn * error) :=
  r <- connSupplier ;;
  let (conn, err) := r in
  match err with
  | Some e => ret (None, Some e)
  | None =>
      let clientConn := {| Conn := conn; dopts := dopts |} in
      let clientConn := initInterceptors clientConn in
      ret (Some clientConn, None)
  end.

(** [next] is a closure around the call [c.Conn.Invoke(...)]. *)
Definition Invoke (c : ClientConn) ctx rpc enc (i o : drpc_Message)
  : M error :=
  let next : drpcinterceptors.UnaryInvoker :=
    fun ctx rpc i o enc => call_Invoke (Conn c) ctx rpc enc i o in
  match drpcinterceptors.UnaryInt (dopts c) with
  | Some UnaryInt => UnaryInt ctx rpc i o (as_drpc_Conn c) enc next
  | None => next ctx rpc i o enc
  end.

Definition NewStream (c : ClientConn) ctx rpc enc
  : M (drpc_Stream * error) :=
  let next : drpcinterceptors.Streamer :=
    fun ctx rpc => call_NewStream (Conn c) ctx rpc enc in
  match drpcinterceptors.StreamInt (dopts c) with
  | Some StreamInt => StreamInt ctx rpc (as_drpc_Conn c) next
  | None => next ctx rpc
  end.

Definition declared (c : ClientConn) (s : selector)
  : option (selector_sig s) :=
  match s with
  | sel_Invoke => Some (Invoke c)
  | sel_NewStream => Some (NewStream c)
  | sel_method _ => None
  end.

Definition select (c : ClientConn) (s : selector) : selector_sig s :=
  match declared c s with
  | Some f => f
  | None => drpc_Conn_select (Conn c) s
  end.
End Package.
End drcpclientconn.


(** ** A pipe-backed connection, as in the packages' tests *)

Module pipe.

(** Interface values: the nil interface, a connection over pipe [id], and a
    [ClientConn] around another interface value. *)
Inductive handle : Type :=
| nil_handle
| over_pipe (id : nat)
| client_conn (inner : handle).

Definition types : GoTypes :=
  {| context_Context := unit;
     drpc_Encoding := unit;
     drpc_Message := string;
     drpc_Stream := option nat;
     Err := string;
     drpc_Conn := handle;
     Ext := list string |}.

(** The server's side of the pipe notes the method it was asked for. *)
Definition served (rpc : string) (w : @World types) : @World types :=
  @Build_World types (interceptorCalls w) (ext w ++ [rpc])%list.

(** Pipe 0 answers; any other pipe has been closed by its peer. *)
Definition pipe_Invoke (h : handle) (ctx : unit) (rpc : string) (enc : unit)
    (i o : string) : @M types (@error types) :=
  fun w =>
    match h with
    | over_pipe 0 => Returned None (served rpc w)
    | _ => Returned (Some "EOF") (served rpc w)
    end.

Definition pipe_NewStream (h : handle) (ctx : unit) (rpc : string) (enc : unit)
    : @M types (option nat * @error types) :=
  fun w =>
    match h with
    | over_pipe 0 => Returned (Some 1, None) (served rpc w)
    | _ => Returned (None, Some "EOF") (served rpc w)
    end.

Inductive method : Type := Close | Closed | Transport.

Definition method_sig (m : method) : Type :=
  match m with
  | Close => @M types (@error types)
  | Closed => @M types bool
  | Transport => handle
  end.

Definition pipe_method (m : method) (h : handle) : method_sig m :=
  match m with
  | Close => fun w => Returned None (served "close" w)
  | Closed => fun w => Returned false w
  | Transport => h
  end.

Definition conn : @DrpcConn types :=
  {| is_nil := fun h : @drpc_Conn types =>
       match h with nil_handle => true | _ => false end;
     drpc_Conn_Invoke := pipe_Invoke;
     drpc_Conn_NewStream := pipe_NewStream;
     ConnMethod := method;
     ConnMethodSig := method_sig;
     drpc_Conn_method := pipe_method |}.

Definition as_conn : @drcpclient.AsConn types :=
  fun c => client_conn (drcpclient.Conn c).

Definition as_conn' : @drcpclientconn.AsConn types :=
  fun c => client_conn (drcpclientconn.Conn c).

Definition empty_world : @World types := @Build_World types [] [].

(** A provider whose dial fails. *)
Definition refused : @M types (handle * @error types) :=
  fun w => Returned (nil_handle, Some "connection refused") w.

(** A provider that hands out the connection over pipe [id]. *)
Definition dialed (id : nat) : @M types (handle * @error types) :=
  fun w => Returned (over_pipe id, None) w.

(** An interceptor that records what kind of handle it was given. *)
Definition handle_kind (h : handle) : string :=
  match h with
  | nil_handle => "nil"
  | over_pipe _ => "pipe"
  | client_conn _ => "ClientConn"
  end.

Definition noting : @drcpclient.UnaryClientInterceptor types :=
  fun ctx rpc enc i o cc invoker =>
    @modify types (record_call (handle_kind cc)) ;;;
    invoker ctx rpc enc i o.

End pipe.


(** ** Names used in the statements *)

(** The names a recording interceptor appends. *)
Definition before (name : string) : string := (name ++ "_before")%string.
Definition after (name : string) : string := (name ++ "_after")%string.

Section Wrappers.
Context {T : GoTypes} {D : DrpcConn}.

(** The wrapper [drcpclient.NewClientConnWithOptions] builds around the
    connection [conn] it was dialed. *)
Definition drcpclient_wrapper (conn : drpc_Conn)
    (opts : list drcpclient.DialOption) : drcpclient.ClientConn :=
  {| drcpclient.Conn := conn;
     drcpclient.dopts := drcpclient.newDialOptions opts |}.

(** The wrapper [drcpclientconn.NewClientConnWithOptions] builds around the
    connection [conn] it was supplied. *)
Definition drcpclientconn_wrapper (conn : drpc_Conn)
    (d : drpcinterceptors.DialOptions) : drcpclientconn.ClientConn :=
  drcpclientconn.initInterceptors
    {| drcpclientconn.Conn := conn; drcpclientconn.dopts := d |}.
(** The options the package drpcinterceptors exports. *)
Definition chaining_option (opt : drpcinterceptors.DialOption) : Prop :=
  (exists ints, opt = drpcinterceptors.WithChainUnaryInterceptor ints)
  \/ (exists ints, opt = drpcinterceptors.WithChainStreamInterceptor ints).
End Wrappers.


(** ** Further interceptors and connections used in the statements *)

Section Redirecting.
Context {T : GoTypes}.

(** A unary interceptor that hands the call on in the context [g ctx] and
    under the method name [f rpc], and returns what the invoker returns. *)
Definition drcpclient_redirecting (g : context_Context -> context_Context)
    (f : string -> string) : drcpclient.UnaryClientInterceptor :=
  fun ctx rpc enc i o conn invoker => invoker (g ctx) (f rpc) enc i o.

Definition drpcinterceptors_redirecting
    (g : context_Context -> context_Context) (f : string -> string)
  : drpcinterceptors.UnaryClientInterceptor :=
  fun ctx method i o conn enc invoker => invoker (g ctx) (f method) i o enc.

(** The arguments the terminal sees after the interceptors of [gfs], the
    first one applied first. *)
Definition redirected_context
    (gfs : list ((context_Context -> context_Context) * (string -> string)))
    (ctx : context_Context) : context_Context :=
  fold_left (fun c gf => fst gf c) gfs ctx.

Definition redirected_method
    (gfs : list ((context_Context -> context_Context) * (string -> string)))
    (rpc : string) : string :=
  fold_left (fun r gf => snd gf r) gfs rpc.
End Redirecting.

(** A connection that is itself a drcpclient wrapper: dispatch on the
    handle of a [ClientConn] runs the methods of the wrapper around the
    pipe connection, configured with [inner_opts]. *)
Module layered.

Definition inner_opts : list (@drcpclient.DialOption pipe.types) :=
  [drcpclient.WithChainUnaryInterceptor
     [drcpclient.recording "inner1"; drcpclient.recording "inner2"]].

Definition inner (h : pipe.handle) : @drcpclient.ClientConn pipe.types :=
  @drcpclient_wrapper pipe.types h inner_opts.

Definition conn : @DrpcConn pipe.types :=
  {| is_nil := fun h : @drpc_Conn pipe.types =>
       match h with pipe.nil_handle => true | _ => false end;
     drpc_Conn_Invoke := fun h : @drpc_Conn pipe.types =>
       match h with
       | pipe.client_conn under =>
           @drcpclient.Invoke pipe.types pipe.conn pipe.as_conn (inner under)
       | _ => pipe.pipe_Invoke h
       end;
     drpc_Conn_NewStream := fun h : @drpc_Conn pipe.types =>
       match h with
       | pipe.client_conn under =>
           @drcpclient.NewStream pipe.types pipe.conn pipe.as_conn
             (inner under)
       | _ => pipe.pipe_NewStream h
       end;
     ConnMethod := pipe.method;
     ConnMethodSig := pipe.method_sig;
     drpc_Conn_method := pipe.pipe_method |}.

End layered.

(** ** The encoding of the packages' tests *)

Module testEncoding.

(** The [drpc.Message] values: a [*string], nil or the address of a string
    variable, or a value of another dynamic type. *)
Inductive Message : Type :=
| string_pointer (p : option nat)
| other_value.

(** The string variables, by address. *)
Definition variables : Type := nat -> string.

Definition assign (h : variables) (p : nat) (s : string) : variables :=
  fun q => if Nat.eqb q p then s else h q.

(** The variable behind [msg], asserted to be a pointer to a string and
    dereferenced: the type assertion panics on another dynamic type, the
    dereference on a nil pointer. *)
Definition string_variable (msg : Message) : panic + nat :=
  match msg with
  | other_value => inl (raised "interface conversion: not *string")
  | string_pointer None => inl nil_dereference
  | string_pointer (Some p) => inr p
  end.

(** [Marshal] returns the bytes of that string, and a nil error. *)
Definition Marshal (msg : Message) (h : variables)
  : panic + (list Byte.byte * option string) :=
  match string_variable msg with
  | inl p => inl p
  | inr p => inr (list_byte_of_string (h p), None)
  end.

(** [Unmarshal] assigns the string made of [buf] to that variable and
    returns a nil error. *)
Definition Unmarshal (buf : list Byte.byte) (msg : Message) (h : variables)
  : panic + (variables * option string) :=
  match string_variable msg with
  | inl p => inl p
  | inr p => inr (assign h p (string_of_list_byte buf), None)
  end.

End testEncoding.


(** ** The func literals of the unary chain *)

(** The unary chaining functions once more, with every func literal of the
    package marked: [probe] is run with the name of the literal each time
    one is entered, as a stack trace would show it. With a probe that does
    nothing these are the functions of the packages (see the erasure
    lemmas); interceptors and invokers handed in by the caller are not
    marked. *)
Module frames.
Section Marked.
Context {T : GoTypes}.
Variable probe : string -> M unit.

(** The loop of drcpclient; the literal built in each turn is
    [chainUnaryClientInterceptors.func1.1]. *)
Fixpoint drcpclient_unary_loop (ints : list drcpclient.UnaryClientInterceptor)
    (conn : drpc_Conn) (k : nat) (chained : drcpclient.UnaryInvoker)
  : panic + drcpclient.UnaryInvoker :=
  match k with
  | 0 => inr chained
  | S i =>
      let next := chained in
      match index ints i with
      | inl p => inl p
      | inr interceptor =>
          drcpclient_unary_loop ints conn i
            (fun ctx rpc enc i o =>
               probe "chainUnaryClientInterceptors.func1.1" ;;;
               interceptor ctx rpc enc i o conn next)
      end
  end.

(** [chainUnaryClientInterceptors] of drcpclient; the literal assigned to
    the field is [chainUnaryClientInterceptors.func1]. *)
Definition drcpclient_chainUnaryClientInterceptors
    (d : drcpclient.DialOptions) : drcpclient.DialOptions :=
  let n := length (drcpclient.unaryInts d) in
  {| drcpclient.chainedUnaryInt :=
       Some (fun ctx rpc enc i o conn invoker =>
               probe "chainUnaryClientInterceptors.func1" ;;;
               match drcpclient_unary_loop (drcpclient.unaryInts d)
                       conn n invoker with
               | inl p => throw p
               | inr chained => chained ctx rpc enc i o
               end);
     drcpclient.unaryInts := drcpclient.unaryInts d;
     drcpclient.chainedStreamInt := drcpclient.chainedStreamInt d;
     drcpclient.streamInts := drcpclient.streamInts d |}.

(** The loop of drpcinterceptors; the literal built in each turn is
    [ChainUnaryClientInterceptors.func1.1]. *)
Fixpoint drpcinterceptors_unary_loop
    (ints : list drpcinterceptors.UnaryClientInterceptor)
    (conn : drpc_Conn) (k : nat) (chained : drpcinterceptors.UnaryInvoker)
  : panic + drpcinterceptors.UnaryInvoker :=
  match k with
  | 0 => inr chained
  | S i =>
      let next := chained in
      match index ints i with
      | inl p => inl p
      | inr interceptor =>
          drpcinterceptors_unary_loop ints conn i
            (fun ctx method i o enc =>
               probe "ChainUnaryClientInterceptors.func1.1" ;;;
               interceptor ctx method i o conn enc next)
      end
  end.

(** [ChainUnaryClientInterceptors] of drpcinterceptors: nil in case 0, the
    slice element in case 1, the literal
    [ChainUnaryClientInterceptors.func1] otherwise. *)
Definition drpcinterceptors_ChainUnaryClientInterceptors
    (d : drpcinterceptors.DialOptions) : drpcinterceptors.DialOptions :=
  let n := length (drpcinterceptors.unaryInts d) in
  {| drpcinterceptors.UnaryInt :=
       match drpcinterceptors.unaryInts d with
       | [] => None
       | [only] => Some only
       | _ :: _ :: _ =>
           Some (fun ctx method i o conn enc invoker =>
                   probe "ChainUnaryClientInterceptors.func1" ;;;
                   match drpcinterceptors_unary_loop
                           (drpcinterceptors.unaryInts d) conn n invoker with
                   | inl p => throw p
                   | inr chained => chained ctx method i o enc
                   end)
       end;
     drpcinterceptors.unaryInts := drpcinterceptors.unaryInts d;
     drpcinterceptors.StreamInt := drpcinterceptors.StreamInt d;
     drpcinterceptors.streamInts := drpcinterceptors.streamInts d |}.
End Marked.

(** The probe that does nothing. *)
Definition silent {T : GoTypes} : string -> M unit := fun _ => ret tt.

End frames.


(** * Properties *)

Unset Implicit Arguments.

(** ** Slices and the recorded calls *)

Section RuntimeFacts.
Context {T : GoTypes}.

Lemma index_in_range {A} (l : list A) (i : nat) :
  i < length l -> exists a, nth_error l i = Some a /\ index l i = inr a.
Proof.
  intros Hlt. unfold index.
  destruct (nth_error l i) as [a|] eqn:Hnth.
  - exists a. split; reflexivity.
  - apply nth_error_None in Hnth. lia.
Qed.

Lemma index_out_of_range_panics {A} (l : list A) (i : nat) :
  length l <= i -> index l i = inl (index_out_of_range i (length l)).
Proof.
  intros Hle. unfold index.
  apply nth_error_None in Hle. rewrite Hle. reflexivity.
Qed.

Lemma firstn_succ_snoc {A} (l : list A) (i : nat) (a : A) :
  nth_error l i = Some a -> firstn (S i) l = firstn i l ++ [a].
Proof.
  revert i. induction l as [|x l IH]; intros [|i] Hnth; simpl in *;
    try discriminate.
  - injection Hnth as ->. reflexivity.
  - f_equal. apply IH. exact Hnth.
Qed.

Lemma Forall_firstn {A} (P : A -> Prop) (n : nat) (l : list A) :
  Forall P l -> Forall P (firstn n l).
Proof.
  intros Hl. revert n. induction Hl as [|a l Ha _ IH]; intros [|n]; simpl;
    constructor; [exact Ha | apply IH].
Qed.

Lemma record_calls_nil (w : World) : record_calls [] w = w.
Proof. destruct w. unfold record_calls. simpl. rewrite app_nil_r. reflexivity. Qed.

Lemma record_call_calls (s : string) (w : World) :
  record_call s w = record_calls [s] w.
Proof. reflexivity. Qed.

Lemma record_calls_app (l1 l2 : list string) (w : World) :
  record_calls l2 (record_calls l1 w) = record_calls (l1 ++ l2) w.
Proof. unfold record_calls. simpl. rewrite app_assoc. reflexivity. Qed.

Lemma interceptorCalls_record_calls (l : list string) (w : World) :
  interceptorCalls (record_calls l w) = interceptorCalls w ++ l.
Proof. reflexivity. Qed.
End RuntimeFacts.

(** ** The chaining loops of drcpclient *)

Section drcpclient_loops.
Context {T : GoTypes}.
Import drcpclient.

(** Within the slice, the loop entered at [k] builds the right fold of the
    first [k] interceptors around the continuation it starts from. *)
Lemma drcpclient_unary_loop_nest ints conn k chained :
  k <= length ints ->
  unary_loop ints conn k chained
  = inr (nest_unary conn (firstn k ints) chained).
Proof.
  revert chained. induction k as [|i IH]; intros chained Hk.
  - reflexivity.
  - destruct (index_in_range ints i) as (a & Hnth & Hidx); [lia|].
    cbn [unary_loop]. rewrite Hidx. rewrite IH by lia.
    rewrite (firstn_succ_snoc _ _ _ Hnth).
    unfold nest_unary. rewrite fold_right_app. reflexivity.
Qed.

Lemma drcpclient_stream_loop_nest ints conn k chained :
  k <= length ints ->
  stream_loop ints conn k chained
  = inr (nest_stream conn (firstn k ints) chained).
Proof.
  revert chained. induction k as [|i IH]; intros chained Hk.
  - reflexivity.
  - destruct (index_in_range ints i) as (a & Hnth & Hidx); [lia|].
    cbn [stream_loop]. rewrite Hidx. rewrite IH by lia.
    rewrite (firstn_succ_snoc _ _ _ Hnth).
    unfold nest_stream. rewrite fold_right_app. reflexivity.
Qed.

(** Entered beyond the slice, the loop panics on its first index. *)
Lemma drcpclient_stream_loop_panics ints conn k chained :
  length ints < k ->
  stream_loop ints conn k chained
  = inl (index_out_of_range (k - 1) (length ints)).
Proof.
  destruct k as [|i]; intros Hk; [lia|].
  simpl. rewrite index_out_of_range_panics by lia.
  replace (i - 0) with i by lia. reflexivity.
Qed.

(** A chain of recording interceptors appends every [before] on the way
    in and, when the terminal returns, every [after] on the way out. *)
Lemma drcpclient_nest_recording conn names terminal ctx rpc enc i o w :
  nest_unary conn (map recording names) terminal ctx rpc enc i o w
  = match terminal ctx rpc enc i o (record_calls (map before names) w) with
    | Returned e w1 => Returned e (record_calls (map after (rev names)) w1)
    | Panicked p w1 => Panicked p w1
    end.
Proof.
  revert w. induction names as [|name names IH]; intros w.
  - simpl. rewrite record_calls_nil.
    destruct (terminal ctx rpc enc i o w) as [e w1|p w1];
      [rewrite record_calls_nil|]; reflexivity.
  - simpl map. unfold nest_unary. simpl fold_right.
    fold (nest_unary conn (map recording names) terminal).
    unfold recording at 1. unfold bind, modify, ret.
    rewrite IH. rewrite record_call_calls, record_calls_app. simpl app.
    fold (before name).
    destruct (terminal ctx rpc enc i o _) as [e w1|p w1]; [|reflexivity].
    rewrite record_call_calls, record_calls_app.
    simpl rev. rewrite map_app. reflexivity.
Qed.

(** Entering interceptors record their names in order, then the terminal
    streamer runs. *)
Lemma drcpclient_nest_entering conn names terminal ctx rpc enc w :
  nest_stream conn (map entering names) terminal ctx rpc enc w
  = terminal ctx rpc enc (record_calls names w).
Proof.
  revert w. induction names as [|name names IH]; intros w.
  - simpl. rewrite record_calls_nil. reflexivity.
  - simpl map. unfold nest_stream. simpl fold_right.
    fold (nest_stream conn (map entering names) terminal).
    unfold entering at 1. unfold bind, modify.
    rewrite IH. rewrite record_call_calls, record_calls_app. reflexivity.
Qed.
End drcpclient_loops.

(** ** What a call through the drcpclient wrapper computes *)

Section drcpclient_calls.
Context {T : GoTypes} {D : DrpcConn} {W : drcpclient.AsConn}.
Import drcpclient.

Lemma drcpclient_NewClientConnWithOptions_dialed ctx dialer opts w conn w1 :
  dialer ctx w = Returned (conn, None) w1 ->
  NewClientConnWithOptions ctx dialer opts w
  = Returned (Some (drcpclient_wrapper conn opts), None) w1.
Proof.
  intros Hdial. unfold NewClientConnWithOptions, bind.
  rewrite Hdial. reflexivity.
Qed.

Lemma drcpclient_Invoke_nest conn opts ctx rpc enc i o :
  let c := drcpclient_wrapper conn opts in
  Invoke c ctx rpc enc i o
  = if is_nil conn then throw nil_dereference
    else nest_unary (as_drpc_Conn c) (unaryInts (dopts c))
           (drpc_Conn_Invoke conn) ctx rpc enc i o.
Proof.
  intros c. unfold Invoke.
  change (Conn c) with conn. change (dopts c) with (newDialOptions opts).
  destruct (is_nil conn); [reflexivity|].
  cbn [dopts newDialOptions chainStreamClientInterceptors
       chainUnaryClientInterceptors chainedUnaryInt unaryInts].
  rewrite drcpclient_unary_loop_nest by lia.
  rewrite firstn_all. reflexivity.
Qed.

Lemma drcpclient_NewStream_nest conn opts ctx rpc enc :
  let c := drcpclient_wrapper conn opts in
  let n := length (unaryInts (dopts c)) in
  NewStream c ctx rpc enc
  = if is_nil conn then throw nil_dereference
    else if (n <=? length (streamInts (dopts c)))%nat
    then nest_stream (as_drpc_Conn c) (firstn n (streamInts (dopts c)))
           (drpc_Conn_NewStream conn) ctx rpc enc
    else throw (index_out_of_range (n - 1) (length (streamInts (dopts c)))).
Proof.
  intros c n. unfold NewStream. subst n.
  change (Conn c) with conn. change (dopts c) with (newDialOptions opts).
  destruct (is_nil conn); [reflexivity|].
  cbn [dopts newDialOptions chainStreamClientInterceptors
       chainUnaryClientInterceptors chainedStreamInt unaryInts streamInts].
  destruct (Nat.leb_spec (length (unaryInts (apply_options opts zero_DialOptions)))
              (length (streamInts (apply_options opts zero_DialOptions))))
    as [Hle|Hgt].
  - rewrite drcpclient_stream_loop_nest by exact Hle. reflexivity.
  - rewrite drcpclient_stream_loop_panics by exact Hgt. reflexivity.
Qed.
End drcpclient_calls.

(** ** The chaining loops of drpcinterceptors *)

Section drpcinterceptors_loops.
Context {T : GoTypes}.
Import drpcinterceptors.

Lemma drpcinterceptors_unary_loop_nest ints conn k chained :
  k <= length ints ->
  unary_loop ints conn k chained
  = inr (nest_unary conn (firstn k ints) chained).
Proof.
  revert chained. induction k as [|i IH]; intros chained Hk.
  - reflexivity.
  - destruct (index_in_range ints i) as (a & Hnth & Hidx); [lia|].
    cbn [unary_loop]. rewrite Hidx. rewrite IH by lia.
    rewrite (firstn_succ_snoc _ _ _ Hnth).
    unfold nest_unary. rewrite fold_right_app. reflexivity.
Qed.

Lemma drpcinterceptors_stream_loop_nest ints conn k chained :
  k <= length ints ->
  stream_loop ints conn k chained
  = inr (nest_stream conn (firstn k ints) chained).
Proof.
  revert chained. induction k as [|i IH]; intros chained Hk.
  - reflexivity.
  - destruct (index_in_range ints i) as (a & Hnth & Hidx); [lia|].
    cbn [stream_loop]. rewrite Hidx. rewrite IH by lia.
    rewrite (firstn_succ_snoc _ _ _ Hnth).
    unfold nest_stream. rewrite fold_right_app. reflexivity.
Qed.

Lemma drpcinterceptors_nest_recording conn names terminal ctx method i o enc w :
  nest_unary conn (map recording names) terminal ctx method i o enc w
  = match terminal ctx method i o enc (record_calls (map before names) w) with
    | Returned e w1 => Returned e (record_calls (map after (rev names)) w1)
    | Panicked p w1 => Panicked p w1
    end.
Proof.
  revert w. induction names as [|name names IH]; intros w.
  - simpl. rewrite record_calls_nil.
    destruct (terminal ctx method i o enc w) as [e w1|p w1];
      [rewrite record_calls_nil|]; reflexivity.
  - simpl map. unfold nest_unary. simpl fold_right.
    fold (nest_unary conn (map recording names) terminal).
    unfold recording at 1. unfold bind, modify, ret.
    rewrite IH. rewrite record_call_calls, record_calls_app. simpl app.
    fold (before name).
    destruct (terminal ctx method i o enc _) as [e w1|p w1]; [|reflexivity].
    rewrite record_call_calls, record_calls_app.
    simpl rev. rewrite map_app. reflexivity.
Qed.

Lemma drpcinterceptors_nest_entering conn names terminal ctx method w :
  nest_stream conn (map entering names) terminal ctx method w
  = terminal ctx method (record_calls names w).
Proof.
  revert w. induction names as [|name names IH]; intros w.
  - simpl. rewrite record_calls_nil. reflexivity.
  - simpl map. unfold nest_stream. simpl fold_right.
    fold (nest_stream conn (map entering names) terminal).
    unfold entering at 1. unfold bind, modify.
    rewrite IH. rewrite record_call_calls, record_calls_app. reflexivity.
Qed.
End drpcinterceptors_loops.

(** ** What a call through the drcpclientconn wrapper computes *)

Section drcpclientconn_calls.
Context {T : GoTypes} {D : DrpcConn} {W : drcpclientconn.AsConn}.
Import drpcinterceptors drcpclientconn.

Lemma drcpclientconn_NewClientConnWithOptions_supplied d supplier w conn w1 :
  supplier w = Returned (conn, None) w1 ->
  NewClientConnWithOptions d supplier w
  = Returned (Some (drcpclientconn_wrapper conn d), None) w1.
Proof.
  intros Hsup. unfold NewClientConnWithOptions, bind.
  rewrite Hsup. reflexivity.
Qed.

Lemma drcpclientconn_Invoke_nest conn d ctx rpc enc i o :
  let c := drcpclientconn_wrapper conn d in
  Invoke c ctx rpc enc i o
  = nest_unary (as_drpc_Conn c) (unaryInts d)
      (fun ctx rpc i o enc => call_Invoke conn ctx rpc enc i o)
      ctx rpc i o enc.
Proof.
  intros c. unfold Invoke.
  change (Conn c) with conn.
  change (dopts c) with
    (ChainStreamClientInterceptors (ChainUnaryClientInterceptors d)).
  cbn [ChainStreamClientInterceptors ChainUnaryClientInterceptors
       UnaryInt unaryInts].
  destruct (unaryInts d) as [|a [|b l]] eqn:Hints.
  - reflexivity.
  - reflexivity.
  - rewrite drpcinterceptors_unary_loop_nest by lia.
    rewrite firstn_all. reflexivity.
Qed.

Lemma drcpclientconn_NewStream_nest conn d ctx rpc enc :
  let c := drcpclientconn_wrapper conn d in
  NewStream c ctx rpc enc
  = nest_stream (as_drpc_Conn c) (streamInts d)
      (fun ctx rpc => call_NewStream conn ctx rpc enc) ctx rpc.
Proof.
  intros c. unfold NewStream.
  change (Conn c) with conn.
  change (dopts c) with
    (ChainStreamClientInterceptors (ChainUnaryClientInterceptors d)).
  cbn [ChainStreamClientInterceptors ChainUnaryClientInterceptors
       StreamInt streamInts].
  destruct (streamInts d) as [|a [|b l]] eqn:Hints.
  - reflexivity.
  - reflexivity.
  - rewrite drpcinterceptors_stream_loop_nest by lia.
    rewrite firstn_all. reflexivity.
Qed.
End drcpclientconn_calls.

(** ** Order of entry and exit *)

Section Ordering.
Context {T : GoTypes} {D : DrpcConn}.
Context {W : drcpclient.AsConn} {W' : drcpclientconn.AsConn}.

(** [C1] With at least two recording unary interceptors configured, in the
    order [names], one [Invoke] through the wrapper appends the [before]
    of every interceptor in the configured order and then the [after] of
    every interceptor in the reverse order, and returns what the terminal
    [Invoke] of the underlying connection returned, a non-nil error
    included. This holds for the wrapper of either package. *)
Theorem unary_chain_entry_and_exit_order
    (names : list string) (conn : drpc_Conn) ctx rpc enc i o
    (w w1 : World) (e : error) :
  2 <= length names ->
  is_nil conn = false ->
  drpc_Conn_Invoke conn ctx rpc enc i o (record_calls (map before names) w)
  = Returned e w1 ->
  interceptorCalls w1 = interceptorCalls w ++ map before names ->
  (forall opts,
     drcpclient.unaryInts (drcpclient.newDialOptions opts)
     = map drcpclient.recording names ->
     exists w',
       drcpclient.Invoke (drcpclient_wrapper conn opts) ctx rpc enc i o w
       = Returned e w'
       /\ interceptorCalls w'
          = interceptorCalls w ++ map before names ++ map after (rev names))
  /\
  (forall d,
     drpcinterceptors.unaryInts d = map drpcinterceptors.recording names ->
     exists w',
       drcpclientconn.Invoke (drcpclientconn_wrapper conn d) ctx rpc enc i o w
       = Returned e w'
       /\ interceptorCalls w'
          = interceptorCalls w ++ map before names ++ map after (rev names)).
Proof.
  intros _ Hnil Hterm Hquiet. split.
  - intros opts Hints.
    exists (record_calls (map after (rev names)) w1). split.
    + pose proof (drcpclient_Invoke_nest conn opts ctx rpc enc i o) as Hrun.
      cbv zeta in Hrun. rewrite Hrun, Hnil.
      change (drcpclient.dopts (drcpclient_wrapper conn opts))
        with (drcpclient.newDialOptions opts).
      rewrite Hints, drcpclient_nest_recording, Hterm. reflexivity.
    + rewrite interceptorCalls_record_calls, Hquiet, app_assoc. reflexivity.
  - intros d Hints.
    exists (record_calls (map after (rev names)) w1). split.
    + pose proof (drcpclientconn_Invoke_nest conn d ctx rpc enc i o) as Hrun.
      cbv zeta in Hrun. rewrite Hrun.
      rewrite Hints, drpcinterceptors_nest_recording.
      unfold call_Invoke. rewrite Hnil, Hterm. reflexivity.
    + rewrite interceptorCalls_record_calls, Hquiet, app_assoc. reflexivity.
Qed.
End Ordering.

Section PipeOrdering.
#[local] Existing Instances pipe.types pipe.conn pipe.as_conn pipe.as_conn'.

(** The test of both packages: [interceptor1] then [interceptor2], here
    over a pipe whose peer has gone, so that the terminal call fails. *)
Lemma unary_chain_entry_and_exit_order_witness :
  (exists w',
     drcpclient.Invoke
       (drcpclient_wrapper (pipe.over_pipe 1)
          [drcpclient.WithChainUnaryInterceptor
             [drcpclient.recording "interceptor1";
              drcpclient.recording "interceptor2"]])
       tt "TestMethod" tt "input" "" pipe.empty_world
     = Returned (Some "EOF") w'
     /\ interceptorCalls w'
        = ["interceptor1_before"; "interceptor2_before";
           "interceptor2_after"; "interceptor1_after"])
  /\
  (exists w',
     drcpclientconn.Invoke
       (drcpclientconn_wrapper (pipe.over_pipe 1)
          (drpcinterceptors.NewDialOptions
             [drpcinterceptors.WithChainUnaryInterceptor
                [drpcinterceptors.recording "interceptor1";
                 drpcinterceptors.recording "interceptor2"]]))
       tt "TestMethod" tt "input" "" pipe.empty_world
     = Returned (Some "EOF") w'
     /\ interceptorCalls w'
        = ["interceptor1_before"; "interceptor2_before";
           "interceptor2_after"; "interceptor1_after"]).
Proof.
  pose proof
    (unary_chain_entry_and_exit_order
       ["interceptor1"; "interceptor2"] (pipe.over_pipe 1)
       tt "TestMethod" tt "input" "" pipe.empty_world
       (pipe.served "TestMethod"
          (record_calls ["interceptor1_before"; "interceptor2_before"]
             pipe.empty_world))
       (Some "EOF")
       ltac:(simpl; lia) eq_refl eq_refl eq_refl) as [Hnew Hold].
  split.
  - apply Hnew. reflexivity.
  - apply Hold. reflexivity.
Defined.
End PipeOrdering.

(** ** The stream chain *)

Section StreamChain.
Context {T : GoTypes} {D : DrpcConn}.
Context {W : drcpclient.AsConn} {W' : drcpclientconn.AsConn}.

(** In drcpclientconn the stream chain enters every configured stream
    interceptor, in the configured order, whatever the unary list is. *)
Lemma drcpclientconn_stream_entry_order names d conn ctx rpc enc w :
  drpcinterceptors.streamInts d = map drpcinterceptors.entering names ->
  drcpclientconn.NewStream (drcpclientconn_wrapper conn d) ctx rpc enc w
  = call_NewStream conn ctx rpc enc (record_calls names w).
Proof.
  intros Hints.
  pose proof (drcpclientconn_NewStream_nest conn d ctx rpc enc) as Hrun.
  cbv zeta in Hrun. rewrite Hrun, Hints.
  rewrite drpcinterceptors_nest_entering. reflexivity.
Qed.

(** In drcpclient the stream chain enters as many stream interceptors as
    there are unary interceptors, when there are that many. *)
Lemma drcpclient_stream_entry_order names opts conn ctx rpc enc w :
  let d := drcpclient.newDialOptions opts in
  drcpclient.streamInts d = map drcpclient.entering names ->
  is_nil conn = false ->
  length (drcpclient.unaryInts d) <= length names ->
  drcpclient.NewStream (drcpclient_wrapper conn opts) ctx rpc enc w
  = drpc_Conn_NewStream conn ctx rpc enc
      (record_calls (firstn (length (drcpclient.unaryInts d)) names) w).
Proof.
  intros d Hints Hnil Hle.
  pose proof (drcpclient_NewStream_nest conn opts ctx rpc enc) as Hrun.
  cbv zeta in Hrun. rewrite Hrun, Hnil. clear Hrun.
  change (drcpclient.dopts (drcpclient_wrapper conn opts)) with d.
  rewrite Hints, length_map.
  destruct (Nat.leb_spec (length (drcpclient.unaryInts d)) (length names))
    as [_|Hgt]; [|lia].
  rewrite firstn_map. rewrite drcpclient_nest_entering. reflexivity.
Qed.

(** With more unary than stream interceptors it panics before any
    interceptor is entered. *)
Lemma drcpclient_stream_chain_panics opts conn ctx rpc enc w :
  let d := drcpclient.newDialOptions opts in
  is_nil conn = false ->
  length (drcpclient.streamInts d) < length (drcpclient.unaryInts d) ->
  drcpclient.NewStream (drcpclient_wrapper conn opts) ctx rpc enc w
  = Panicked
      (index_out_of_range (length (drcpclient.unaryInts d) - 1)
         (length (drcpclient.streamInts d))) w.
Proof.
  intros d Hnil Hlt.
  pose proof (drcpclient_NewStream_nest conn opts ctx rpc enc) as Hrun.
  cbv zeta in Hrun. rewrite Hrun, Hnil. clear Hrun.
  change (drcpclient.dopts (drcpclient_wrapper conn opts)) with d.
  destruct (Nat.leb_spec (length (drcpclient.unaryInts d))
              (length (drcpclient.streamInts d))) as [Hle|_]; [lia|].
  reflexivity.
Qed.
End StreamChain.

Section PipeStreamChain.
#[local] Existing Instances pipe.types pipe.conn pipe.as_conn pipe.as_conn'.

(** [C2] The stream chain of drcpclient takes its bound from the unary
    list. With the stream interceptors [s1; s2] and no unary interceptor,
    [NewStream] opens the stream without entering either of them; with
    three unary interceptors added, it panics on [d.streamInts[2]]. The
    chain of drcpclientconn, given the same stream interceptors, enters
    [s1] then [s2] with or without unary interceptors. *)
Theorem stream_chain_bound_is_unary_length :
  drcpclient.NewStream
    (drcpclient_wrapper (pipe.over_pipe 0)
       [drcpclient.WithChainStreamInterceptor
          [drcpclient.entering "s1"; drcpclient.entering "s2"]])
    tt "Stream" tt pipe.empty_world
  = Returned (Some 1, None) (pipe.served "Stream" pipe.empty_world)
  /\
  drcpclient.NewStream
    (drcpclient_wrapper (pipe.over_pipe 0)
       [drcpclient.WithChainStreamInterceptor
          [drcpclient.entering "s1"; drcpclient.entering "s2"];
        drcpclient.WithChainUnaryInterceptor
          [drcpclient.recording "u1"; drcpclient.recording "u2";
           drcpclient.recording "u3"]])
    tt "Stream" tt pipe.empty_world
  = Panicked (index_out_of_range 2 2) pipe.empty_world
  /\
  drcpclientconn.NewStream
    (drcpclientconn_wrapper (pipe.over_pipe 0)
       (drpcinterceptors.NewDialOptions
          [drpcinterceptors.WithChainStreamInterceptor
             [drpcinterceptors.entering "s1";
              drpcinterceptors.entering "s2"]]))
    tt "Stream" tt pipe.empty_world
  = Returned (Some 1, None)
      (pipe.served "Stream" (record_calls ["s1"; "s2"] pipe.empty_world))
  /\
  drcpclientconn.NewStream
    (drcpclientconn_wrapper (pipe.over_pipe 0)
       (drpcinterceptors.NewDialOptions
          [drpcinterceptors.WithChainStreamInterceptor
             [drpcinterceptors.entering "s1";
              drpcinterceptors.entering "s2"];
           drpcinterceptors.WithChainUnaryInterceptor
             [drpcinterceptors.recording "u1";
              drpcinterceptors.recording "u2";
              drpcinterceptors.recording "u3"]]))
    tt "Stream" tt pipe.empty_world
  = Returned (Some 1, None)
      (pipe.served "Stream" (record_calls ["s1"; "s2"] pipe.empty_world)).
Proof. repeat split; reflexivity. Qed.
End PipeStreamChain.

(** ** The compiled fields *)

Section CompiledFields.
Context {T : GoTypes} {D : DrpcConn}.
Context {W : drcpclient.AsConn} {W' : drcpclientconn.AsConn}.

Lemma drpcinterceptors_apply_options_keeps_compiled opts d :
  Forall chaining_option opts ->
  drpcinterceptors.UnaryInt (drpcinterceptors.apply_options opts d)
  = drpcinterceptors.UnaryInt d
  /\ drpcinterceptors.StreamInt (drpcinterceptors.apply_options opts d)
     = drpcinterceptors.StreamInt d.
Proof.
  intros Hopts. revert d.
  induction Hopts as [|opt opts Hopt _ IH]; intros d.
  - split; reflexivity.
  - unfold drpcinterceptors.apply_options in *. cbn [fold_left].
    destruct (IH (opt d)) as [IHu IHs]. rewrite IHu, IHs.
    destruct Hopt as [[ints ->]|[ints ->]]; split; reflexivity.
Qed.

(** [C3] In drcpclient both compiled fields are non-nil for every list of
    options, the empty list and lists that add no interceptor included:
    [chainUnaryClientInterceptors] and [chainStreamClientInterceptors]
    assign a closure whatever the length. In drcpclientconn a wrapper
    built from options without interceptors has both fields nil. *)
Theorem compiled_chain_of_no_interceptors :
  (forall opts : list drcpclient.DialOption,
     drcpclient.chainedUnaryInt (drcpclient.newDialOptions opts) <> None
     /\ drcpclient.chainedStreamInt (drcpclient.newDialOptions opts) <> None)
  /\
  (forall conn : drpc_Conn,
     let c :=
       drcpclientconn_wrapper conn (drpcinterceptors.NewDialOptions []) in
     drpcinterceptors.UnaryInt (drcpclientconn.dopts c) = None
     /\ drpcinterceptors.StreamInt (drcpclientconn.dopts c) = None).
Proof.
  split.
  - intros opts. split; discriminate.
  - intros conn. split; reflexivity.
Qed.

Lemma drcpclient_NewClientConnWithOptions_inv ctx dialer opts w c w1 :
  drcpclient.NewClientConnWithOptions ctx dialer opts w
  = Returned (Some c, None) w1 ->
  exists conn,
    dialer ctx w = Returned (conn, None) w1
    /\ c = drcpclient_wrapper conn opts.
Proof.
  unfold drcpclient.NewClientConnWithOptions, bind, ret.
  destruct (dialer ctx w) as [[conn [e|]] w2|p w2]; intros Hret;
    try discriminate.
  injection Hret as <- <-. exists conn. split; reflexivity.
Qed.

Lemma drcpclientconn_NewClientConnWithOptions_inv d supplier w c w1 :
  drcpclientconn.NewClientConnWithOptions d supplier w
  = Returned (Some c, None) w1 ->
  exists conn,
    supplier w = Returned (conn, None) w1
    /\ c = drcpclientconn_wrapper conn d.
Proof.
  unfold drcpclientconn.NewClientConnWithOptions, bind, ret.
  destruct (supplier w) as [[conn [e|]] w2|p w2]; intros Hret;
    try discriminate.
  injection Hret as <- <-. exists conn. split; reflexivity.
Qed.

(** [C4] The chains are compiled when the wrapper is built, once for that
    wrapper. In drcpclient, [newDialOptions] compiles them after applying
    the options; the wrapper holds exactly that value, and its compiled
    fields depend on the options only through the two interceptor
    sequences. In drpcinterceptors, [NewDialOptions] applies the options
    and compiles nothing: with the package's options both compiled fields
    are still nil. The wrapper of drcpclientconn compiles its own copy in
    [initInterceptors], and the compiled fields it holds depend only on
    the two sequences. In both packages [Invoke] and [NewStream] use the
    compiled field as it stands: wrappers that agree on the connection,
    the handle and the compiled field make the same call. *)
Theorem chains_compiled_when_wrapper_is_built :
  (forall ctx dialer opts w c w1,
     drcpclient.NewClientConnWithOptions ctx dialer opts w
     = Returned (Some c, None) w1 ->
     drcpclient.dopts c = drcpclient.newDialOptions opts)
  /\
  (forall opts opts' : list drcpclient.DialOption,
     let d := drcpclient.apply_options opts drcpclient.zero_DialOptions in
     let d' := drcpclient.apply_options opts' drcpclient.zero_DialOptions in
     drcpclient.unaryInts d = drcpclient.unaryInts d' ->
     drcpclient.streamInts d = drcpclient.streamInts d' ->
     drcpclient.chainedUnaryInt (drcpclient.newDialOptions opts)
     = drcpclient.chainedUnaryInt (drcpclient.newDialOptions opts')
     /\ drcpclient.chainedStreamInt (drcpclient.newDialOptions opts)
        = drcpclient.chainedStreamInt (drcpclient.newDialOptions opts'))
  /\
  (forall opts : list drpcinterceptors.DialOption,
     Forall chaining_option opts ->
     drpcinterceptors.UnaryInt (drpcinterceptors.NewDialOptions opts) = None
     /\ drpcinterceptors.StreamInt (drpcinterceptors.NewDialOptions opts)
        = None)
  /\
  (forall d supplier w c w1,
     drcpclientconn.NewClientConnWithOptions d supplier w
     = Returned (Some c, None) w1 ->
     drcpclientconn.dopts c
     = drpcinterceptors.ChainStreamClientInterceptors
         (drpcinterceptors.ChainUnaryClientInterceptors d))
  /\
  (forall d d' : drpcinterceptors.DialOptions,
     drpcinterceptors.unaryInts d = drpcinterceptors.unaryInts d' ->
     drpcinterceptors.streamInts d = drpcinterceptors.streamInts d' ->
     forall conn conn',
       drcpclientconn.dopts (drcpclientconn_wrapper conn d)
       = drcpclientconn.dopts (drcpclientconn_wrapper conn' d'))
  /\
  (forall c c' : drcpclient.ClientConn,
     drcpclient.Conn c = drcpclient.Conn c' ->
     drcpclient.as_drpc_Conn c = drcpclient.as_drpc_Conn c' ->
     (drcpclient.chainedUnaryInt (drcpclient.dopts c)
      = drcpclient.chainedUnaryInt (drcpclient.dopts c') ->
      drcpclient.Invoke c = drcpclient.Invoke c')
     /\ (drcpclient.chainedStreamInt (drcpclient.dopts c)
         = drcpclient.chainedStreamInt (drcpclient.dopts c') ->
         drcpclient.NewStream c = drcpclient.NewStream c'))
  /\
  (forall c c' : drcpclientconn.ClientConn,
     drcpclientconn.Conn c = drcpclientconn.Conn c' ->
     drcpclientconn.as_drpc_Conn c = drcpclientconn.as_drpc_Conn c' ->
     (drpcinterceptors.UnaryInt (drcpclientconn.dopts c)
      = drpcinterceptors.UnaryInt (drcpclientconn.dopts c') ->
      drcpclientconn.Invoke c = drcpclientconn.Invoke c')
     /\ (drpcinterceptors.StreamInt (drcpclientconn.dopts c)
         = drpcinterceptors.StreamInt (drcpclientconn.dopts c') ->
         drcpclientconn.NewStream c = drcpclientconn.NewStream c')).
Proof.
  repeat apply conj.
  - intros ctx dialer opts w c w1 Hret.
    apply drcpclient_NewClientConnWithOptions_inv in Hret.
    destruct Hret as (conn & _ & ->). reflexivity.
  - intros opts opts' d d' Hu Hs. subst d d'.
    unfold drcpclient.newDialOptions.
    cbn [drcpclient.chainStreamClientInterceptors
         drcpclient.chainUnaryClientInterceptors
         drcpclient.chainedUnaryInt drcpclient.chainedStreamInt
         drcpclient.unaryInts drcpclient.streamInts].
    rewrite Hu, Hs. split; reflexivity.
  - intros opts Hopts.
    apply (drpcinterceptors_apply_options_keeps_compiled opts
             drpcinterceptors.zero_DialOptions Hopts).
  - intros d supplier w c w1 Hret.
    apply drcpclientconn_NewClientConnWithOptions_inv in Hret.
    destruct Hret as (conn & _ & ->). reflexivity.
  - intros d d' Hu Hs conn conn'.
    unfold drcpclientconn_wrapper, drcpclientconn.initInterceptors.
    cbn [drcpclientconn.dopts].
    unfold drpcinterceptors.ChainStreamClientInterceptors,
      drpcinterceptors.ChainUnaryClientInterceptors.
    cbn [drpcinterceptors.unaryInts drpcinterceptors.streamInts
         drpcinterceptors.UnaryInt drpcinterceptors.StreamInt].
    rewrite Hu, Hs. reflexivity.
  - intros c c' Hconn Has. split; intros Hfield.
    + unfold drcpclient.Invoke. rewrite Hconn, Has, Hfield. reflexivity.
    + unfold drcpclient.NewStream. rewrite Hconn, Has, Hfield. reflexivity.
  - intros c c' Hconn Has. split; intros Hfield.
    + unfold drcpclientconn.Invoke. rewrite Hconn, Has, Hfield. reflexivity.
    + unfold drcpclientconn.NewStream.
      rewrite Hconn, Has, Hfield. reflexivity.
Qed.
End CompiledFields.

Section PipeCompiledFields.
#[local] Existing Instances pipe.types pipe.conn pipe.as_conn pipe.as_conn'.

(** In drpcinterceptors, building the options with two unary interceptors
    leaves [UnaryInt] nil, and the field changes when a wrapper is built
    from them: construction of the options neither compiles the chains nor
    fixes the compiled fields. *)
Lemma chains_compiled_at_options_construction_counterexample :
  ~ (forall opts : list drpcinterceptors.DialOption,
       let d := drpcinterceptors.NewDialOptions opts in
       (drpcinterceptors.UnaryInt d
        = drpcinterceptors.UnaryInt
            (drpcinterceptors.ChainUnaryClientInterceptors d)
        /\ drpcinterceptors.StreamInt d
           = drpcinterceptors.StreamInt
               (drpcinterceptors.ChainStreamClientInterceptors d))
       /\ forall conn : pipe.handle,
            drcpclientconn.dopts (drcpclientconn_wrapper conn d) = d).
Proof.
  intros Hclaim.
  destruct (Hclaim
              [drpcinterceptors.WithChainUnaryInterceptor
                 [drpcinterceptors.recording "interceptor1";
                  drpcinterceptors.recording "interceptor2"]])
    as [[Hunary _] _].
  simpl in Hunary. discriminate Hunary.
Qed.

Lemma chains_compiled_when_wrapper_is_built_witness :
  (let opts :=
     [drcpclient.WithChainUnaryInterceptor
        [drcpclient.recording "interceptor1";
         drcpclient.recording "interceptor2"]] in
   drcpclient.dopts (drcpclient_wrapper (pipe.over_pipe 0) opts)
   = drcpclient.newDialOptions opts)
  /\
  (let opts :=
     [drpcinterceptors.WithChainUnaryInterceptor
        [drpcinterceptors.recording "interceptor1";
         drpcinterceptors.recording "interceptor2"]] in
   drpcinterceptors.UnaryInt (drpcinterceptors.NewDialOptions opts) = None
   /\ drpcinterceptors.StreamInt (drpcinterceptors.NewDialOptions opts)
      = None)
  /\
  (let d :=
     drpcinterceptors.NewDialOptions
       [drpcinterceptors.WithChainUnaryInterceptor
          [drpcinterceptors.recording "interceptor1";
           drpcinterceptors.recording "interceptor2"]] in
   drcpclientconn.dopts (drcpclientconn_wrapper (pipe.over_pipe 0) d)
   = drpcinterceptors.ChainStreamClientInterceptors
       (drpcinterceptors.ChainUnaryClientInterceptors d)).
Proof.
  destruct (@chains_compiled_when_wrapper_is_built
              pipe.types pipe.conn pipe.as_conn pipe.as_conn')
    as (Hnew & _ & Hnil & Hold & _).
  split; [|split].
  - intros opts.
    apply Hnew with (ctx := tt) (dialer := fun _ => pipe.dialed 0)
                    (w := pipe.empty_world) (w1 := pipe.empty_world).
    reflexivity.
  - intros opts. apply Hnil.
    constructor; [|constructor]. left.
    exists [drpcinterceptors.recording "interceptor1";
            drpcinterceptors.recording "interceptor2"].
    reflexivity.
  - intros d.
    apply Hold with (supplier := pipe.dialed 0)
                    (w := pipe.empty_world) (w1 := pipe.empty_world).
    reflexivity.
Defined.
End PipeCompiledFields.

(** ** Errors of the terminal operation *)

Section ErrorPropagation.
Context {T : GoTypes} {D : DrpcConn}.
Context {W : drcpclient.AsConn} {W' : drcpclientconn.AsConn}.

Lemma drcpclient_recording_propagates name :
  drcpclient.propagates (drcpclient.recording name).
Proof.
  intros E next Hnext conn ctx rpc enc i o w.
  unfold drcpclient.recording, bind, modify, ret.
  destruct (Hnext ctx rpc enc i o (record_call (name ++ "_before")%string w))
    as [w1 Hw1].
  rewrite Hw1. eexists. reflexivity.
Qed.

Lemma drpcinterceptors_recording_propagates name :
  drpcinterceptors.propagates (drpcinterceptors.recording name).
Proof.
  intros E next Hnext conn ctx method i o enc w.
  unfold drpcinterceptors.recording, bind, modify, ret.
  destruct (Hnext ctx method i o enc
              (record_call (name ++ "_before")%string w)) as [w1 Hw1].
  rewrite Hw1. eexists. reflexivity.
Qed.

Lemma drcpclient_nest_unary_fails_with E conn ints terminal :
  Forall drcpclient.propagates ints ->
  drcpclient.fails_with E terminal ->
  drcpclient.fails_with E (drcpclient.nest_unary conn ints terminal).
Proof.
  intros Hints Hterm. induction Hints as [|a ints Ha _ IH].
  - exact Hterm.
  - exact (Ha E _ IH conn).
Qed.

Lemma drcpclient_nest_stream_fails_with E conn ints terminal :
  Forall drcpclient.stream_propagates ints ->
  drcpclient.stream_fails_with E terminal ->
  drcpclient.stream_fails_with E (drcpclient.nest_stream conn ints terminal).
Proof.
  intros Hints Hterm. induction Hints as [|a ints Ha _ IH].
  - exact Hterm.
  - exact (Ha E _ IH conn).
Qed.

Lemma drpcinterceptors_nest_unary_fails_with E conn ints terminal :
  Forall drpcinterceptors.propagates ints ->
  drpcinterceptors.fails_with E terminal ->
  drpcinterceptors.fails_with E
    (drpcinterceptors.nest_unary conn ints terminal).
Proof.
  intros Hints Hterm. induction Hints as [|a ints Ha _ IH].
  - exact Hterm.
  - exact (Ha E _ IH conn).
Qed.

Lemma drpcinterceptors_nest_stream_fails_with E conn ints terminal :
  Forall drpcinterceptors.stream_propagates ints ->
  drpcinterceptors.stream_fails_with E terminal ->
  drpcinterceptors.stream_fails_with E
    (drpcinterceptors.nest_stream conn ints terminal).
Proof.
  intros Hints Hterm. induction Hints as [|a ints Ha _ IH].
  - exact Hterm.
  - exact (Ha E _ IH conn).
Qed.

(** [Invoke] of drcpclient returns the error of the terminal [Invoke] when
    every unary interceptor propagates it. *)
Lemma drcpclient_Invoke_propagates E conn opts :
  is_nil conn = false ->
  Forall drcpclient.propagates
    (drcpclient.unaryInts (drcpclient.newDialOptions opts)) ->
  drcpclient.fails_with E (drpc_Conn_Invoke conn) ->
  drcpclient.fails_with E
    (drcpclient.Invoke (drcpclient_wrapper conn opts)).
Proof.
  intros Hnil Hints Hterm ctx rpc enc i o w.
  pose proof (drcpclient_Invoke_nest conn opts ctx rpc enc i o) as Hrun.
  cbv zeta in Hrun. rewrite Hrun, Hnil.
  apply drcpclient_nest_unary_fails_with; assumption.
Qed.

(** [NewStream] of drcpclient does so as long as there are no more unary
    than stream interceptors. *)
Lemma drcpclient_NewStream_propagates E conn opts :
  let d := drcpclient.newDialOptions opts in
  is_nil conn = false ->
  length (drcpclient.unaryInts d) <= length (drcpclient.streamInts d) ->
  Forall drcpclient.stream_propagates (drcpclient.streamInts d) ->
  drcpclient.stream_fails_with E (drpc_Conn_NewStream conn) ->
  drcpclient.stream_fails_with E
    (drcpclient.NewStream (drcpclient_wrapper conn opts)).
Proof.
  intros d Hnil Hle Hints Hterm ctx rpc enc w.
  pose proof (drcpclient_NewStream_nest conn opts ctx rpc enc) as Hrun.
  cbv zeta in Hrun. rewrite Hrun, Hnil. clear Hrun.
  change (drcpclient.dopts (drcpclient_wrapper conn opts)) with d.
  destruct (Nat.leb_spec (length (drcpclient.unaryInts d))
              (length (drcpclient.streamInts d))) as [_|Hgt]; [|lia].
  apply drcpclient_nest_stream_fails_with; [|exact Hterm].
  apply Forall_firstn. exact Hints.
Qed.

(** [Invoke] and [NewStream] of drcpclientconn always do. *)
Lemma drcpclientconn_Invoke_propagates E conn d :
  is_nil conn = false ->
  Forall drpcinterceptors.propagates (drpcinterceptors.unaryInts d) ->
  (forall ctx rpc enc i o w,
     exists w', drpc_Conn_Invoke conn ctx rpc enc i o w
                = Returned (Some E) w') ->
  forall ctx rpc enc i o w,
    exists w',
      drcpclientconn.Invoke (drcpclientconn_wrapper conn d) ctx rpc enc i o w
      = Returned (Some E) w'.
Proof.
  intros Hnil Hints Hterm ctx rpc enc i o w.
  pose proof (drcpclientconn_Invoke_nest conn d ctx rpc enc i o) as Hrun.
  cbv zeta in Hrun. rewrite Hrun.
  apply drpcinterceptors_nest_unary_fails_with; [exact Hints|].
  intros ctx0 rpc0 i0 o0 enc0 w0. unfold call_Invoke. rewrite Hnil.
  apply Hterm.
Qed.

Lemma drcpclientconn_NewStream_propagates E conn d :
  is_nil conn = false ->
  Forall drpcinterceptors.stream_propagates (drpcinterceptors.streamInts d) ->
  (forall ctx rpc enc w,
     exists st w', drpc_Conn_NewStream conn ctx rpc enc w
                   = Returned (st, Some E) w') ->
  forall ctx rpc enc w,
    exists st w',
      drcpclientconn.NewStream (drcpclientconn_wrapper conn d) ctx rpc enc w
      = Returned (st, Some E) w'.
Proof.
  intros Hnil Hints Hterm ctx rpc enc w.
  pose proof (drcpclientconn_NewStream_nest conn d ctx rpc enc) as Hrun.
  cbv zeta in Hrun. rewrite Hrun.
  apply drpcinterceptors_nest_stream_fails_with; [exact Hints|].
  intros ctx0 rpc0 w0. unfold call_NewStream. rewrite Hnil.
  apply Hterm.
Qed.
End ErrorPropagation.

Section PipeErrorPropagation.
#[local] Existing Instances pipe.types pipe.conn pipe.as_conn pipe.as_conn'.

(** [C5] Over a pipe whose peer has gone, the terminal [NewStream] fails
    with EOF wherever it is called. A drcpclient wrapper configured with
    one propagating unary interceptor and no stream interceptor returns
    EOF from [Invoke], but its [NewStream] panics on [d.streamInts[0]]
    and returns no error at all. The wrapper of drcpclientconn, configured
    alike, returns EOF from both. *)
Theorem stream_error_lost_to_panic :
  drcpclient.stream_fails_with "EOF"
    (drpc_Conn_NewStream (pipe.over_pipe 1))
  /\
  (let opts :=
     [drcpclient.WithChainUnaryInterceptor
        [drcpclient.recording "interceptor1"]] in
   let c := drcpclient_wrapper (pipe.over_pipe 1) opts in
   Forall drcpclient.propagates
     (drcpclient.unaryInts (drcpclient.dopts c))
   /\ Forall drcpclient.stream_propagates
        (drcpclient.streamInts (drcpclient.dopts c))
   /\ drcpclient.NewStream c tt "Stream" tt pipe.empty_world
      = Panicked (index_out_of_range 0 0) pipe.empty_world
   /\ exists w',
        drcpclient.Invoke c tt "TestMethod" tt "input" "" pipe.empty_world
        = Returned (Some "EOF") w')
  /\
  (let d :=
     drpcinterceptors.NewDialOptions
       [drpcinterceptors.WithChainUnaryInterceptor
          [drpcinterceptors.recording "interceptor1"]] in
   let c := drcpclientconn_wrapper (pipe.over_pipe 1) d in
   drcpclientconn.NewStream c tt "Stream" tt pipe.empty_world
   = Returned (None, Some "EOF") (pipe.served "Stream" pipe.empty_world)
   /\ exists w',
        drcpclientconn.Invoke c tt "TestMethod" tt "input" ""
          pipe.empty_world
        = Returned (Some "EOF") w').
Proof.
  split; [|split].
  - intros ctx rpc enc w. eexists. eexists. reflexivity.
  - intros opts c. repeat split.
    + constructor; [|constructor]. apply drcpclient_recording_propagates.
    + constructor.
    + eexists. lazy. reflexivity.
  - intros d c. split.
    + reflexivity.
    + eexists. lazy. reflexivity.
Qed.
End PipeErrorPropagation.

(** ** Failure of the connection provider *)

Section Construction.
Context {T : GoTypes} {D : DrpcConn}.
Context {W : drcpclient.AsConn} {W' : drcpclientconn.AsConn}.

(** [C6] When the provider returns a non-nil error,
    [NewClientConnWithOptions] returns a nil wrapper and that error, and
    leaves the world as the provider left it, whatever options and
    interceptors were passed. This holds in both packages. *)
Theorem provider_error_aborts_construction :
  (forall ctx dialer (opts : list drcpclient.DialOption)
          (w w1 : World) conn (e : Err),
     dialer ctx w = Returned (conn, Some e) w1 ->
     drcpclient.NewClientConnWithOptions ctx dialer opts w
     = Returned (None, Some e) w1)
  /\
  (forall (d : drpcinterceptors.DialOptions) supplier
          (w w1 : World) conn (e : Err),
     supplier w = Returned (conn, Some e) w1 ->
     drcpclientconn.NewClientConnWithOptions d supplier w
     = Returned (None, Some e) w1).
Proof.
  split.
  - intros ctx dialer opts w w1 conn e Hdial.
    unfold drcpclient.NewClientConnWithOptions, bind.
    rewrite Hdial. reflexivity.
  - intros d supplier w w1 conn e Hsup.
    unfold drcpclientconn.NewClientConnWithOptions, bind.
    rewrite Hsup. reflexivity.
Qed.
End Construction.

Section PipeConstruction.
#[local] Existing Instances pipe.types pipe.conn pipe.as_conn pipe.as_conn'.

Lemma provider_error_aborts_construction_witness :
  drcpclient.NewClientConnWithOptions tt (fun _ => pipe.refused)
    [drcpclient.WithChainUnaryInterceptor
       [drcpclient.recording "interceptor1";
        drcpclient.recording "interceptor2"]]
    pipe.empty_world
  = Returned (None, Some "connection refused") pipe.empty_world
  /\
  drcpclientconn.NewClientConnWithOptions
    (drpcinterceptors.NewDialOptions
       [drpcinterceptors.WithChainUnaryInterceptor
          [drpcinterceptors.recording "interceptor1";
           drpcinterceptors.recording "interceptor2"]])
    pipe.refused pipe.empty_world
  = Returned (None, Some "connection refused") pipe.empty_world.
Proof.
  destruct (@provider_error_aborts_construction pipe.types)
    as [Hnew Hold].
  split.
  - apply Hnew with (conn := pipe.nil_handle). reflexivity.
  - apply Hold with (conn := pipe.nil_handle). reflexivity.
Defined.
End PipeConstruction.

(** ** Chains of one and of no interceptor *)

Section ShortChains.
Context {T : GoTypes} {D : DrpcConn}.
Context {W : drcpclient.AsConn} {W' : drcpclientconn.AsConn}.

(** What a chain of one interceptor computes. With exactly one unary
    interceptor configured, calling the
    compiled unary chain with a handle and a terminal invoker is calling
    that interceptor with the same handle and with the terminal invoker
    itself as its continuation; [Invoke] therefore calls the interceptor
    once, directly around the terminal [Invoke] of the connection. In
    drcpclientconn the compiled field is the interceptor; in drcpclient it
    is a closure that hands its arguments to the interceptor unchanged. *)
Theorem single_interceptor_chain_is_the_interceptor :
  (forall (opts : list drcpclient.DialOption) only conn,
     drcpclient.unaryInts (drcpclient.newDialOptions opts) = [only] ->
     (exists chain,
        drcpclient.chainedUnaryInt (drcpclient.newDialOptions opts)
        = Some chain
        /\ forall ctx rpc enc i o cc invoker,
             chain ctx rpc enc i o cc invoker
             = only ctx rpc enc i o cc invoker)
     /\ (is_nil conn = false ->
         forall ctx rpc enc i o,
           let c := drcpclient_wrapper conn opts in
           drcpclient.Invoke c ctx rpc enc i o
           = only ctx rpc enc i o (drcpclient.as_drpc_Conn c)
               (drpc_Conn_Invoke conn)))
  /\
  (forall (d : drpcinterceptors.DialOptions) only conn,
     drpcinterceptors.unaryInts d = [only] ->
     let c := drcpclientconn_wrapper conn d in
     drpcinterceptors.UnaryInt (drcpclientconn.dopts c) = Some only
     /\ forall ctx rpc enc i o,
          drcpclientconn.Invoke c ctx rpc enc i o
          = only ctx rpc i o (drcpclientconn.as_drpc_Conn c) enc
              (fun ctx rpc i o enc => call_Invoke conn ctx rpc enc i o)).
Proof.
  split.
  - intros opts only conn Hints. split.
    + eexists. split.
      * unfold drcpclient.newDialOptions.
        cbn [drcpclient.chainStreamClientInterceptors
             drcpclient.chainUnaryClientInterceptors
             drcpclient.chainedUnaryInt].
        reflexivity.
      * intros ctx rpc enc i o cc invoker.
        change (drcpclient.unaryInts
                  (drcpclient.apply_options opts drcpclient.zero_DialOptions))
          with (drcpclient.unaryInts (drcpclient.newDialOptions opts)).
        rewrite Hints. reflexivity.
    + intros Hnil ctx rpc enc i o c.
      pose proof (drcpclient_Invoke_nest conn opts ctx rpc enc i o) as Hrun.
      cbv zeta in Hrun. subst c. rewrite Hrun, Hnil.
      change (drcpclient.dopts (drcpclient_wrapper conn opts))
        with (drcpclient.newDialOptions opts).
      rewrite Hints. reflexivity.
  - intros d only conn Hints c. split.
    + subst c. unfold drcpclientconn_wrapper, drcpclientconn.initInterceptors.
      cbn [drcpclientconn.dopts drpcinterceptors.UnaryInt
           drpcinterceptors.ChainStreamClientInterceptors
           drpcinterceptors.ChainUnaryClientInterceptors].
      rewrite Hints. reflexivity.
    + intros ctx rpc enc i o.
      pose proof (drcpclientconn_Invoke_nest conn d ctx rpc enc i o) as Hrun.
      cbv zeta in Hrun. subst c. rewrite Hrun, Hints. reflexivity.
Qed.

(** [C8] With no unary and no stream interceptor configured, [Invoke] and
    [NewStream] of the wrapper are the calls [Invoke] and [NewStream] on
    the underlying connection with the same arguments: the same value,
    error, panic and world for every argument and every world. This holds
    in both packages. *)
Theorem no_interceptors_passthrough :
  (forall (opts : list drcpclient.DialOption) conn,
     drcpclient.unaryInts (drcpclient.newDialOptions opts) = [] ->
     drcpclient.streamInts (drcpclient.newDialOptions opts) = [] ->
     let c := drcpclient_wrapper conn opts in
     (forall ctx rpc enc i o,
        drcpclient.Invoke c ctx rpc enc i o
        = call_Invoke conn ctx rpc enc i o)
     /\ (forall ctx rpc enc,
           drcpclient.NewStream c ctx rpc enc
           = call_NewStream conn ctx rpc enc))
  /\
  (forall (d : drpcinterceptors.DialOptions) conn,
     drpcinterceptors.unaryInts d = [] ->
     drpcinterceptors.streamInts d = [] ->
     let c := drcpclientconn_wrapper conn d in
     (forall ctx rpc enc i o,
        drcpclientconn.Invoke c ctx rpc enc i o
        = call_Invoke conn ctx rpc enc i o)
     /\ (forall ctx rpc enc,
           drcpclientconn.NewStream c ctx rpc enc
           = call_NewStream conn ctx rpc enc)).
Proof.
  split.
  - intros opts conn Hu Hs c. split.
    + intros ctx rpc enc i o.
      pose proof (drcpclient_Invoke_nest conn opts ctx rpc enc i o) as Hrun.
      cbv zeta in Hrun. subst c. rewrite Hrun.
      change (drcpclient.dopts (drcpclient_wrapper conn opts))
        with (drcpclient.newDialOptions opts).
      rewrite Hu. reflexivity.
    + intros ctx rpc enc.
      pose proof (drcpclient_NewStream_nest conn opts ctx rpc enc) as Hrun.
      cbv zeta in Hrun. subst c. rewrite Hrun.
      change (drcpclient.dopts (drcpclient_wrapper conn opts))
        with (drcpclient.newDialOptions opts).
      rewrite Hu, Hs. reflexivity.
  - intros d conn Hu Hs c. split.
    + intros ctx rpc enc i o.
      pose proof (drcpclientconn_Invoke_nest conn d ctx rpc enc i o) as Hrun.
      cbv zeta in Hrun. subst c. rewrite Hrun, Hu. reflexivity.
    + intros ctx rpc enc.
      pose proof (drcpclientconn_NewStream_nest conn d ctx rpc enc) as Hrun.
      cbv zeta in Hrun. subst c. rewrite Hrun, Hs. reflexivity.
Qed.
End ShortChains.

Section PipeShortChains.
#[local] Existing Instances pipe.types pipe.conn pipe.as_conn pipe.as_conn'.

Lemma single_interceptor_chain_is_the_interceptor_witness :
  (let opts :=
     [drcpclient.WithChainUnaryInterceptor
        [drcpclient.recording "interceptor1"]] in
   let c := drcpclient_wrapper (pipe.over_pipe 0) opts in
   drcpclient.Invoke c tt "TestMethod" tt "input" ""
   = drcpclient.recording "interceptor1" tt "TestMethod" tt "input" ""
       (pipe.client_conn (pipe.over_pipe 0))
       (pipe.pipe_Invoke (pipe.over_pipe 0)))
  /\
  (let d :=
     drpcinterceptors.NewDialOptions
       [drpcinterceptors.WithChainUnaryInterceptor
          [drpcinterceptors.recording "interceptor1"]] in
   let c := drcpclientconn_wrapper (pipe.over_pipe 0) d in
   drpcinterceptors.UnaryInt (drcpclientconn.dopts c)
   = Some (drpcinterceptors.recording "interceptor1")).
Proof.
  destruct (@single_interceptor_chain_is_the_interceptor
              pipe.types pipe.conn pipe.as_conn pipe.as_conn')
    as [Hnew Hold].
  split.
  - intros opts c.
    destruct (Hnew opts (drcpclient.recording "interceptor1")
                (pipe.over_pipe 0) eq_refl) as [_ Hcall].
    exact (Hcall eq_refl tt "TestMethod" tt "input" "").
  - intros d c.
    destruct (Hold d (drpcinterceptors.recording "interceptor1")
                (pipe.over_pipe 0) eq_refl) as [Hfield _].
    exact Hfield.
Defined.

Lemma no_interceptors_passthrough_witness :
  (forall rpc i o,
     drcpclient.Invoke (drcpclient_wrapper (pipe.over_pipe 1) [])
       tt rpc tt i o
     = call_Invoke (pipe.over_pipe 1) tt rpc tt i o)
  /\
  (forall rpc,
     drcpclientconn.NewStream
       (drcpclientconn_wrapper (pipe.over_pipe 0)
          (drpcinterceptors.NewDialOptions []))
       tt rpc tt
     = call_NewStream (pipe.over_pipe 0) tt rpc tt).
Proof.
  destruct (@no_interceptors_passthrough
              pipe.types pipe.conn pipe.as_conn pipe.as_conn')
    as [Hnew Hold].
  split.
  - intros rpc i o.
    destruct (Hnew [] (pipe.over_pipe 1) eq_refl eq_refl) as [Hinvoke _].
    apply Hinvoke.
  - intros rpc.
    destruct (Hold (drpcinterceptors.NewDialOptions []) (pipe.over_pipe 0)
                eq_refl eq_refl) as [_ Hstream].
    apply Hstream.
Defined.
End PipeShortChains.

(** ** The handle the interceptors receive *)

Section Handle.
Context {T : GoTypes} {D : DrpcConn}.
Context {W : drcpclient.AsConn} {W' : drcpclientconn.AsConn}.

(** [C9] Every interceptor a call enters receives, as its connection
    handle, the wrapper converted to [drpc.Conn], and not the field
    [Conn] of the wrapper. A call through the wrapper [c] is the right
    fold of the interceptors it enters in which each of them is applied to
    [as_drpc_Conn c]; only the terminal operation is applied to the
    underlying connection. For the stream chain of drcpclient the
    interceptors entered are the first [len(unaryInts)] stream
    interceptors, and none when that exceeds their number. *)
Theorem interceptors_receive_the_wrapper :
  (forall conn (opts : list drcpclient.DialOption),
     let c := drcpclient_wrapper conn opts in
     let n := length (drcpclient.unaryInts (drcpclient.dopts c)) in
     (forall ctx rpc enc i o,
        drcpclient.Invoke c ctx rpc enc i o
        = if is_nil conn then throw nil_dereference
          else drcpclient.nest_unary (drcpclient.as_drpc_Conn c)
                 (drcpclient.unaryInts (drcpclient.dopts c))
                 (drpc_Conn_Invoke conn) ctx rpc enc i o)
     /\ (forall ctx rpc enc,
           drcpclient.NewStream c ctx rpc enc
           = if is_nil conn then throw nil_dereference
             else if (n <=? length (drcpclient.streamInts
                                      (drcpclient.dopts c)))%nat
             then drcpclient.nest_stream (drcpclient.as_drpc_Conn c)
                    (firstn n (drcpclient.streamInts (drcpclient.dopts c)))
                    (drpc_Conn_NewStream conn) ctx rpc enc
             else throw (index_out_of_range (n - 1)
                           (length (drcpclient.streamInts
                                      (drcpclient.dopts c))))))
  /\
  (forall conn (d : drpcinterceptors.DialOptions),
     let c := drcpclientconn_wrapper conn d in
     (forall ctx rpc enc i o,
        drcpclientconn.Invoke c ctx rpc enc i o
        = drpcinterceptors.nest_unary (drcpclientconn.as_drpc_Conn c)
            (drpcinterceptors.unaryInts d)
            (fun ctx rpc i o enc => call_Invoke conn ctx rpc enc i o)
            ctx rpc i o enc)
     /\ (forall ctx rpc enc,
           drcpclientconn.NewStream c ctx rpc enc
           = drpcinterceptors.nest_stream (drcpclientconn.as_drpc_Conn c)
               (drpcinterceptors.streamInts d)
               (fun ctx rpc => call_NewStream conn ctx rpc enc) ctx rpc)).
Proof.
  split.
  - intros conn opts c n. split.
    + intros ctx rpc enc i o.
      exact (drcpclient_Invoke_nest conn opts ctx rpc enc i o).
    + intros ctx rpc enc.
      exact (drcpclient_NewStream_nest conn opts ctx rpc enc).
  - intros conn d c. split.
    + intros ctx rpc enc i o.
      exact (drcpclientconn_Invoke_nest conn d ctx rpc enc i o).
    + intros ctx rpc enc.
      exact (drcpclientconn_NewStream_nest conn d ctx rpc enc).
Qed.

(** ** The rest of the connection surface *)

(** [C10] Every method of [drpc.Conn] other than [Invoke] and [NewStream]
    selected on a wrapper is the method of the embedded connection,
    applied to that connection: the options of the wrapper, and so its
    interceptors, take no part in it. This holds in both packages. *)
Theorem other_methods_go_to_the_embedded_connection :
  (forall (c : drcpclient.ClientConn) (m : ConnMethod),
     drcpclient.select c (sel_method m)
     = drpc_Conn_method m (drcpclient.Conn c))
  /\
  (forall (c c' : drcpclient.ClientConn) (m : ConnMethod),
     drcpclient.Conn c = drcpclient.Conn c' ->
     drcpclient.select c (sel_method m)
     = drcpclient.select c' (sel_method m))
  /\
  (forall (c : drcpclientconn.ClientConn) (m : ConnMethod),
     drcpclientconn.select c (sel_method m)
     = drpc_Conn_method m (drcpclientconn.Conn c))
  /\
  (forall (c c' : drcpclientconn.ClientConn) (m : ConnMethod),
     drcpclientconn.Conn c = drcpclientconn.Conn c' ->
     drcpclientconn.select c (sel_method m)
     = drcpclientconn.select c' (sel_method m)).
Proof.
  repeat apply conj.
  - intros c m. reflexivity.
  - intros c c' m Hconn.
    unfold drcpclient.select. cbn [drcpclient.declared drpc_Conn_select].
    rewrite Hconn. reflexivity.
  - intros c m. reflexivity.
  - intros c c' m Hconn.
    unfold drcpclientconn.select.
    cbn [drcpclientconn.declared drpc_Conn_select].
    rewrite Hconn. reflexivity.
Qed.
End Handle.

Section PipeHandle.
#[local] Existing Instances pipe.types pipe.conn pipe.as_conn pipe.as_conn'.

(** Over a pipe, two interceptors that record the kind of their handle
    both see the [ClientConn], not the connection it embeds. *)
Lemma drcpclient_handle_over_pipe :
  drcpclient.Invoke
    (drcpclient_wrapper (pipe.over_pipe 0)
       [drcpclient.WithChainUnaryInterceptor [pipe.noting; pipe.noting]])
    tt "TestMethod" tt "input" "" pipe.empty_world
  = Returned None
      (pipe.served "TestMethod"
         (record_calls ["ClientConn"; "ClientConn"] pipe.empty_world)).
Proof. reflexivity. Qed.
End PipeHandle.

Section PipeSurface.
#[local] Existing Instances pipe.types pipe.conn pipe.as_conn pipe.as_conn'.

Lemma other_methods_go_to_the_embedded_connection_witness :
  let opts :=
    [drcpclient.WithChainUnaryInterceptor
       [drcpclient.recording "interceptor1"];
     drcpclient.WithChainStreamInterceptor [drcpclient.entering "s1"]] in
  drcpclient.select (drcpclient_wrapper (pipe.over_pipe 0) opts)
    (sel_method pipe.Close)
  = drcpclient.select (drcpclient_wrapper (pipe.over_pipe 0) [])
      (sel_method pipe.Close).
Proof.
  intros opts.
  destruct (@other_methods_go_to_the_embedded_connection
              pipe.types pipe.conn pipe.as_conn pipe.as_conn')
    as (_ & Hframe & _).
  apply Hframe. reflexivity.
Defined.
End PipeSurface.

(** * Further properties of the packages *)

(** ** Options *)

Section Options.
Context {T : GoTypes}.

Lemma drcpclient_apply_options_snoc opts opt d :
  drcpclient.apply_options (opts ++ [opt]) d
  = opt (drcpclient.apply_options opts d).
Proof. unfold drcpclient.apply_options. rewrite fold_left_app. reflexivity. Qed.

Lemma drpcinterceptors_apply_options_snoc opts opt d :
  drpcinterceptors.apply_options (opts ++ [opt]) d
  = opt (drpcinterceptors.apply_options opts d).
Proof.
  unfold drpcinterceptors.apply_options. rewrite fold_left_app. reflexivity.
Qed.

Lemma drcpclient_unary_options_concat uss d :
  let d' :=
    drcpclient.apply_options
      (map drcpclient.WithChainUnaryInterceptor uss) d in
  drcpclient.unaryInts d' = drcpclient.unaryInts d ++ concat uss
  /\ drcpclient.streamInts d' = drcpclient.streamInts d.
Proof.
  revert d. induction uss as [|us uss IH]; intros d; cbn zeta.
  - simpl. rewrite app_nil_r. split; reflexivity.
  - unfold drcpclient.apply_options in *. cbn [map fold_left concat].
    destruct (IH (drcpclient.WithChainUnaryInterceptor us d)) as [IHu IHs].
    cbn zeta in IHu, IHs. rewrite IHu, IHs.
    cbn [drcpclient.WithChainUnaryInterceptor drcpclient.unaryInts
         drcpclient.streamInts].
    rewrite app_assoc. split; reflexivity.
Qed.

Lemma drpcinterceptors_unary_options_concat uss d :
  let d' :=
    drpcinterceptors.apply_options
      (map drpcinterceptors.WithChainUnaryInterceptor uss) d in
  drpcinterceptors.unaryInts d' = drpcinterceptors.unaryInts d ++ concat uss
  /\ drpcinterceptors.streamInts d' = drpcinterceptors.streamInts d.
Proof.
  revert d. induction uss as [|us uss IH]; intros d; cbn zeta.
  - simpl. rewrite app_nil_r. split; reflexivity.
  - unfold drpcinterceptors.apply_options in *. cbn [map fold_left concat].
    destruct (IH (drpcinterceptors.WithChainUnaryInterceptor us d))
      as [IHu IHs].
    cbn zeta in IHu, IHs. rewrite IHu, IHs.
    cbn [drpcinterceptors.WithChainUnaryInterceptor
         drpcinterceptors.unaryInts drpcinterceptors.streamInts].
    rewrite app_assoc. split; reflexivity.
Qed.

(** [X1] Chaining options accumulate. After any options, one more
    [WithChainUnaryInterceptor] appends its interceptors to the unary list
    and leaves the stream list alone, and one more
    [WithChainStreamInterceptor] does the converse; so the unary list built
    from a sequence of unary options is the concatenation of their
    arguments, in the order the options were given. This holds for
    [newDialOptions] of drcpclient and [NewDialOptions] of
    drpcinterceptors. *)
Theorem chaining_options_accumulate :
  (forall (opts : list drcpclient.DialOption) us ss,
     let d := drcpclient.newDialOptions opts in
     let du :=
       drcpclient.newDialOptions
         (opts ++ [drcpclient.WithChainUnaryInterceptor us]) in
     let ds :=
       drcpclient.newDialOptions
         (opts ++ [drcpclient.WithChainStreamInterceptor ss]) in
     drcpclient.unaryInts du = drcpclient.unaryInts d ++ us
     /\ drcpclient.streamInts du = drcpclient.streamInts d
     /\ drcpclient.streamInts ds = drcpclient.streamInts d ++ ss
     /\ drcpclient.unaryInts ds = drcpclient.unaryInts d)
  /\
  (forall uss : list (list drcpclient.UnaryClientInterceptor),
     drcpclient.unaryInts
       (drcpclient.newDialOptions
          (map drcpclient.WithChainUnaryInterceptor uss))
     = concat uss)
  /\
  (forall (opts : list drpcinterceptors.DialOption) us ss,
     let d := drpcinterceptors.NewDialOptions opts in
     let du :=
       drpcinterceptors.NewDialOptions
         (opts ++ [drpcinterceptors.WithChainUnaryInterceptor us]) in
     let ds :=
       drpcinterceptors.NewDialOptions
         (opts ++ [drpcinterceptors.WithChainStreamInterceptor ss]) in
     drpcinterceptors.unaryInts du = drpcinterceptors.unaryInts d ++ us
     /\ drpcinterceptors.streamInts du = drpcinterceptors.streamInts d
     /\ drpcinterceptors.streamInts ds = drpcinterceptors.streamInts d ++ ss
     /\ drpcinterceptors.unaryInts ds = drpcinterceptors.unaryInts d)
  /\
  (forall uss : list (list drpcinterceptors.UnaryClientInterceptor),
     drpcinterceptors.unaryInts
       (drpcinterceptors.NewDialOptions
          (map drpcinterceptors.WithChainUnaryInterceptor uss))
     = concat uss).
Proof.
  repeat apply conj.
  - intros opts us ss d du ds. subst d du ds.
    unfold drcpclient.newDialOptions.
    cbn [drcpclient.chainStreamClientInterceptors
         drcpclient.chainUnaryClientInterceptors
         drcpclient.unaryInts drcpclient.streamInts].
    rewrite !drcpclient_apply_options_snoc. repeat split; reflexivity.
  - intros uss.
    destruct (drcpclient_unary_options_concat uss
                drcpclient.zero_DialOptions) as [Hu _].
    exact Hu.
  - intros opts us ss d du ds. subst d du ds.
    unfold drpcinterceptors.NewDialOptions.
    rewrite !drpcinterceptors_apply_options_snoc. repeat split; reflexivity.
  - intros uss.
    destruct (drpcinterceptors_unary_options_concat uss
                drpcinterceptors.zero_DialOptions) as [Hu _].
    exact Hu.
Qed.
End Options.

(** ** Nil connections *)

Section ConstructionResults.
Context {T : GoTypes} {D : DrpcConn}.
Context {W : drcpclient.AsConn} {W' : drcpclientconn.AsConn}.

Lemma drcpclient_Invoke_recording conn opts names ctx rpc enc i o w :
  is_nil conn = false ->
  drcpclient.unaryInts (drcpclient.newDialOptions opts)
  = map drcpclient.recording names ->
  drcpclient.Invoke (drcpclient_wrapper conn opts) ctx rpc enc i o w
  = match drpc_Conn_Invoke conn ctx rpc enc i o
            (record_calls (map before names) w) with
    | Returned e w1 => Returned e (record_calls (map after (rev names)) w1)
    | Panicked p w1 => Panicked p w1
    end.
Proof.
  intros Hnil Hints.
  pose proof (drcpclient_Invoke_nest conn opts ctx rpc enc i o) as Hrun.
  cbv zeta in Hrun. rewrite Hrun, Hnil.
  change (drcpclient.dopts (drcpclient_wrapper conn opts))
    with (drcpclient.newDialOptions opts).
  rewrite Hints. apply drcpclient_nest_recording.
Qed.

Lemma drcpclientconn_Invoke_recording conn d names ctx rpc enc i o w :
  drpcinterceptors.unaryInts d = map drpcinterceptors.recording names ->
  drcpclientconn.Invoke (drcpclientconn_wrapper conn d) ctx rpc enc i o w
  = match call_Invoke conn ctx rpc enc i o
            (record_calls (map before names) w) with
    | Returned e w1 => Returned e (record_calls (map after (rev names)) w1)
    | Panicked p w1 => Panicked p w1
    end.
Proof.
  intros Hints.
  pose proof (drcpclientconn_Invoke_nest conn d ctx rpc enc i o) as Hrun.
  cbv zeta in Hrun. rewrite Hrun, Hints.
  rewrite drpcinterceptors_nest_recording. reflexivity.
Qed.

(** [X3] A wrapper around a nil connection. In drcpclient, [Invoke] and
    [NewStream] panic with a nil dereference before any interceptor is
    entered, whatever the options: the world is untouched. In
    drcpclientconn the interceptors are entered first and the panic comes
    from the terminal call: recording unary interceptors have all appended
    their [before], and none its [after]; entering stream interceptors have
    all recorded their entry. *)
Theorem nil_connection_panics :
  (forall conn (opts : list drcpclient.DialOption),
     is_nil conn = true ->
     (forall ctx rpc enc i o w,
        drcpclient.Invoke (drcpclient_wrapper conn opts) ctx rpc enc i o w
        = Panicked nil_dereference w)
     /\ (forall ctx rpc enc w,
           drcpclient.NewStream (drcpclient_wrapper conn opts) ctx rpc enc w
           = Panicked nil_dereference w))
  /\
  (forall conn (d : drpcinterceptors.DialOptions) names,
     is_nil conn = true ->
     drpcinterceptors.unaryInts d = map drpcinterceptors.recording names ->
     forall ctx rpc enc i o w,
       drcpclientconn.Invoke (drcpclientconn_wrapper conn d) ctx rpc enc i o w
       = Panicked nil_dereference (record_calls (map before names) w))
  /\
  (forall conn (d : drpcinterceptors.DialOptions) names,
     is_nil conn = true ->
     drpcinterceptors.streamInts d = map drpcinterceptors.entering names ->
     forall ctx rpc enc w,
       drcpclientconn.NewStream (drcpclientconn_wrapper conn d) ctx rpc enc w
       = Panicked nil_dereference (record_calls names w)).
Proof.
  split; [|split].
  - intros conn opts Hnil. split.
    + intros ctx rpc enc i o w.
      unfold drcpclient.Invoke.
      change (drcpclient.Conn (drcpclient_wrapper conn opts)) with conn.
      rewrite Hnil. reflexivity.
    + intros ctx rpc enc w.
      unfold drcpclient.NewStream.
      change (drcpclient.Conn (drcpclient_wrapper conn opts)) with conn.
      rewrite Hnil. reflexivity.
  - intros conn d names Hnil Hints ctx rpc enc i o w.
    rewrite (drcpclientconn_Invoke_recording conn d names) by exact Hints.
    unfold call_Invoke. rewrite Hnil. reflexivity.
  - intros conn d names Hnil Hints ctx rpc enc w.
    rewrite (drcpclientconn_stream_entry_order names) by exact Hints.
    unfold call_NewStream. rewrite Hnil. reflexivity.
Qed.
End ConstructionResults.

Section PipeConstructionResults.
#[local] Existing Instances pipe.types pipe.conn pipe.as_conn pipe.as_conn'.

Lemma nil_connection_panics_witness :
  drcpclient.Invoke
    (drcpclient_wrapper pipe.nil_handle
       [drcpclient.WithChainUnaryInterceptor
          [drcpclient.recording "interceptor1"]])
    tt "TestMethod" tt "input" "" pipe.empty_world
  = Panicked nil_dereference pipe.empty_world
  /\
  drcpclientconn.Invoke
    (drcpclientconn_wrapper pipe.nil_handle
       (drpcinterceptors.NewDialOptions
          [drpcinterceptors.WithChainUnaryInterceptor
             [drpcinterceptors.recording "interceptor1"]]))
    tt "TestMethod" tt "input" "" pipe.empty_world
  = Panicked nil_dereference
      (record_calls ["interceptor1_before"] pipe.empty_world).
Proof.
  destruct (@nil_connection_panics
              pipe.types pipe.conn pipe.as_conn pipe.as_conn')
    as (Hnew & Hold & _).
  split.
  - destruct (Hnew pipe.nil_handle
                [drcpclient.WithChainUnaryInterceptor
                   [drcpclient.recording "interceptor1"]] eq_refl)
      as [Hinvoke _].
    apply Hinvoke.
  - apply Hold with (names := ["interceptor1"]); reflexivity.
Defined.
End PipeConstructionResults.

(** ** How interceptors shape a call *)

Section Shaping.
Context {T : GoTypes} {D : DrpcConn}.
Context {W : drcpclient.AsConn} {W' : drcpclientconn.AsConn}.

(** [X4] An interceptor that returns without calling its continuation ends
    the call there: the call is the chain of the interceptors configured
    before it, closed by that interceptor. The interceptors configured
    after it and the underlying connection take no part in the result; in
    drcpclientconn this holds even around a nil connection. *)
Theorem interceptor_that_returns_cuts_the_chain :
  (forall conn (opts : list drcpclient.DialOption) pre post
          (body : context_Context -> string -> drpc_Encoding ->
                  drpc_Message -> drpc_Message -> drpc_Conn -> M error),
     is_nil conn = false ->
     drcpclient.unaryInts (drcpclient.newDialOptions opts)
     = pre ++ (fun ctx rpc enc i o cc _ => body ctx rpc enc i o cc) :: post ->
     let c := drcpclient_wrapper conn opts in
     forall ctx rpc enc i o,
       drcpclient.Invoke c ctx rpc enc i o
       = drcpclient.nest_unary (drcpclient.as_drpc_Conn c) pre
           (fun ctx rpc enc i o =>
              body ctx rpc enc i o (drcpclient.as_drpc_Conn c))
           ctx rpc enc i o)
  /\
  (forall conn (d : drpcinterceptors.DialOptions) pre post
          (body : context_Context -> string -> drpc_Message ->
                  drpc_Message -> drpc_Conn -> drpc_Encoding -> M error),
     drpcinterceptors.unaryInts d
     = pre ++ (fun ctx rpc i o cc enc _ => body ctx rpc i o cc enc) :: post ->
     let c := drcpclientconn_wrapper conn d in
     forall ctx rpc enc i o,
       drcpclientconn.Invoke c ctx rpc enc i o
       = drpcinterceptors.nest_unary (drcpclientconn.as_drpc_Conn c) pre
           (fun ctx rpc i o enc =>
              body ctx rpc i o (drcpclientconn.as_drpc_Conn c) enc)
           ctx rpc i o enc).
Proof.
  split.
  - intros conn opts pre post body Hnil Hints c ctx rpc enc i o.
    pose proof (drcpclient_Invoke_nest conn opts ctx rpc enc i o) as Hrun.
    cbv zeta in Hrun. subst c. rewrite Hrun, Hnil.
    change (drcpclient.dopts (drcpclient_wrapper conn opts))
      with (drcpclient.newDialOptions opts).
    rewrite Hints. unfold drcpclient.nest_unary.
    rewrite fold_right_app. reflexivity.
  - intros conn d pre post body Hints c ctx rpc enc i o.
    pose proof (drcpclientconn_Invoke_nest conn d ctx rpc enc i o) as Hrun.
    cbv zeta in Hrun. subst c. rewrite Hrun, Hints.
    unfold drpcinterceptors.nest_unary.
    rewrite fold_right_app. reflexivity.
Qed.

Lemma drcpclient_nest_redirecting conn gfs terminal ctx rpc enc i o :
  drcpclient.nest_unary conn
    (map (fun gf => drcpclient_redirecting (fst gf) (snd gf)) gfs)
    terminal ctx rpc enc i o
  = terminal (redirected_context gfs ctx) (redirected_method gfs rpc)
      enc i o.
Proof.
  revert ctx rpc. induction gfs as [|[g f] gfs IH]; intros ctx rpc.
  - reflexivity.
  - cbn [map]. unfold drcpclient.nest_unary. cbn [fold_right].
    fold (drcpclient.nest_unary conn
            (map (fun gf => drcpclient_redirecting (fst gf) (snd gf)) gfs)
            terminal).
    unfold drcpclient_redirecting at 1. cbn [fst snd].
    rewrite IH. reflexivity.
Qed.

Lemma drpcinterceptors_nest_redirecting conn gfs terminal ctx rpc i o enc :
  drpcinterceptors.nest_unary conn
    (map (fun gf => drpcinterceptors_redirecting (fst gf) (snd gf)) gfs)
    terminal ctx rpc i o enc
  = terminal (redirected_context gfs ctx) (redirected_method gfs rpc)
      i o enc.
Proof.
  revert ctx rpc. induction gfs as [|[g f] gfs IH]; intros ctx rpc.
  - reflexivity.
  - cbn [map]. unfold drpcinterceptors.nest_unary. cbn [fold_right].
    fold (drpcinterceptors.nest_unary conn
            (map (fun gf => drpcinterceptors_redirecting (fst gf) (snd gf))
               gfs)
            terminal).
    unfold drpcinterceptors_redirecting at 1. cbn [fst snd].
    rewrite IH. reflexivity.
Qed.

(** [X5] The context and the method name reach the terminal as the
    interceptors rewrote them, the first configured interceptor rewriting
    first; encoding and messages are handed on as the caller gave them.
    With interceptors that hand on [g ctx] and [f rpc], the call through
    the wrapper is one terminal call whose context and method are the
    caller's with every [g], resp. every [f], applied in configured
    order. This holds in both packages. *)
Theorem arguments_reach_the_terminal_rewritten_in_order :
  (forall conn (opts : list drcpclient.DialOption) gfs,
     is_nil conn = false ->
     drcpclient.unaryInts (drcpclient.newDialOptions opts)
     = map (fun gf => drcpclient_redirecting (fst gf) (snd gf)) gfs ->
     forall ctx rpc enc i o,
       drcpclient.Invoke (drcpclient_wrapper conn opts) ctx rpc enc i o
       = drpc_Conn_Invoke conn
           (redirected_context gfs ctx) (redirected_method gfs rpc) enc i o)
  /\
  (forall conn (d : drpcinterceptors.DialOptions) gfs,
     drpcinterceptors.unaryInts d
     = map (fun gf => drpcinterceptors_redirecting (fst gf) (snd gf)) gfs ->
     forall ctx rpc enc i o,
       drcpclientconn.Invoke (drcpclientconn_wrapper conn d) ctx rpc enc i o
       = call_Invoke conn
           (redirected_context gfs ctx) (redirected_method gfs rpc) enc i o).
Proof.
  split.
  - intros conn opts gfs Hnil Hints ctx rpc enc i o.
    pose proof (drcpclient_Invoke_nest conn opts ctx rpc enc i o) as Hrun.
    cbv zeta in Hrun. rewrite Hrun, Hnil.
    change (drcpclient.dopts (drcpclient_wrapper conn opts))
      with (drcpclient.newDialOptions opts).
    rewrite Hints. apply drcpclient_nest_redirecting.
  - intros conn d gfs Hints ctx rpc enc i o.
    pose proof (drcpclientconn_Invoke_nest conn d ctx rpc enc i o) as Hrun.
    cbv zeta in Hrun. rewrite Hrun, Hints.
    rewrite drpcinterceptors_nest_redirecting. reflexivity.
Qed.
End Shaping.

(** ** Composition of compiled chains *)

Section Composition.
Context {T : GoTypes}.

Lemma drcpclient_compiled_unary_partial d chain conn invoker :
  drcpclient.chainedUnaryInt (drcpclient.chainUnaryClientInterceptors d)
  = Some chain ->
  (fun ctx rpc enc i o => chain ctx rpc enc i o conn invoker)
  = drcpclient.nest_unary conn (drcpclient.unaryInts d) invoker.
Proof.
  cbn [drcpclient.chainUnaryClientInterceptors drcpclient.chainedUnaryInt].
  intros Hchain. injection Hchain as <-. cbv beta.
  rewrite drcpclient_unary_loop_nest by lia.
  rewrite firstn_all. reflexivity.
Qed.

Lemma drpcinterceptors_compiled_unary_partial d chain conn invoker :
  drpcinterceptors.UnaryInt (drpcinterceptors.ChainUnaryClientInterceptors d)
  = Some chain ->
  (fun ctx method i o enc => chain ctx method i o conn enc invoker)
  = drpcinterceptors.nest_unary conn (drpcinterceptors.unaryInts d) invoker.
Proof.
  cbn [drpcinterceptors.ChainUnaryClientInterceptors
       drpcinterceptors.UnaryInt].
  destruct (drpcinterceptors.unaryInts d) as [|a [|b l]] eqn:Hints;
    intros Hchain; [discriminate| |].
  - injection Hchain as <-. reflexivity.
  - apply (f_equal (fun x => match x with Some c => c | None => chain end))
      in Hchain.
    cbv beta iota in Hchain. subst chain. cbv beta.
    rewrite drpcinterceptors_unary_loop_nest by lia.
    rewrite firstn_all. reflexivity.
Qed.

(** [X6] Compiled unary chains compose by nesting. If the unary list of
    one set of options is the list of a first set followed by the list of
    a second, its compiled chain, called with a handle and an invoker, is
    the compiled chain of the first set called with the same handle and,
    as its invoker, the compiled chain of the second set around the
    original invoker. So configuring interceptors in one option or
    splitting them over two layers of options gives the same calls. This
    holds for [chainUnaryClientInterceptors] of drcpclient and, for
    non-empty lists, for [ChainUnaryClientInterceptors] of
    drpcinterceptors. *)
Theorem compiled_unary_chains_compose :
  (forall (d1 d2 d12 : drcpclient.DialOptions) c1 c2 c12,
     drcpclient.unaryInts d12
     = drcpclient.unaryInts d1 ++ drcpclient.unaryInts d2 ->
     drcpclient.chainedUnaryInt (drcpclient.chainUnaryClientInterceptors d1)
     = Some c1 ->
     drcpclient.chainedUnaryInt (drcpclient.chainUnaryClientInterceptors d2)
     = Some c2 ->
     drcpclient.chainedUnaryInt (drcpclient.chainUnaryClientInterceptors d12)
     = Some c12 ->
     forall ctx rpc enc i o conn invoker,
       c12 ctx rpc enc i o conn invoker
       = c1 ctx rpc enc i o conn
           (fun ctx rpc enc i o => c2 ctx rpc enc i o conn invoker))
  /\
  (forall (d1 d2 d12 : drpcinterceptors.DialOptions) c1 c2 c12,
     drpcinterceptors.unaryInts d12
     = drpcinterceptors.unaryInts d1 ++ drpcinterceptors.unaryInts d2 ->
     drpcinterceptors.UnaryInt
       (drpcinterceptors.ChainUnaryClientInterceptors d1) = Some c1 ->
     drpcinterceptors.UnaryInt
       (drpcinterceptors.ChainUnaryClientInterceptors d2) = Some c2 ->
     drpcinterceptors.UnaryInt
       (drpcinterceptors.ChainUnaryClientInterceptors d12) = Some c12 ->
     forall ctx method i o conn enc invoker,
       c12 ctx method i o conn enc invoker
       = c1 ctx method i o conn enc
           (fun ctx method i o enc => c2 ctx method i o conn enc invoker)).
Proof.
  split.
  - intros d1 d2 d12 c1 c2 c12 Hints H1 H2 H12 ctx rpc enc i o conn invoker.
    change (c12 ctx rpc enc i o conn invoker)
      with ((fun ctx rpc enc i o => c12 ctx rpc enc i o conn invoker)
              ctx rpc enc i o).
    rewrite (drcpclient_compiled_unary_partial d12 c12 conn invoker H12).
    rewrite (drcpclient_compiled_unary_partial d2 c2 conn invoker H2).
    change (c1 ctx rpc enc i o conn
              (drcpclient.nest_unary conn (drcpclient.unaryInts d2) invoker))
      with ((fun ctx rpc enc i o =>
               c1 ctx rpc enc i o conn
                 (drcpclient.nest_unary conn (drcpclient.unaryInts d2)
                    invoker)) ctx rpc enc i o).
    rewrite (drcpclient_compiled_unary_partial d1 c1 conn _ H1).
    rewrite Hints. unfold drcpclient.nest_unary.
    rewrite fold_right_app. reflexivity.
  - intros d1 d2 d12 c1 c2 c12 Hints H1 H2 H12
           ctx method i o conn enc invoker.
    change (c12 ctx method i o conn enc invoker)
      with ((fun ctx method i o enc => c12 ctx method i o conn enc invoker)
              ctx method i o enc).
    rewrite (drpcinterceptors_compiled_unary_partial d12 c12 conn invoker H12).
    rewrite (drpcinterceptors_compiled_unary_partial d2 c2 conn invoker H2).
    change (c1 ctx method i o conn enc
              (drpcinterceptors.nest_unary conn
                 (drpcinterceptors.unaryInts d2) invoker))
      with ((fun ctx method i o enc =>
               c1 ctx method i o conn enc
                 (drpcinterceptors.nest_unary conn
                    (drpcinterceptors.unaryInts d2) invoker))
              ctx method i o enc).
    rewrite (drpcinterceptors_compiled_unary_partial d1 c1 conn _ H1).
    rewrite Hints. unfold drpcinterceptors.nest_unary.
    rewrite fold_right_app. reflexivity.
Qed.
End Composition.

Section PipeShaping.
#[local] Existing Instances pipe.types pipe.conn pipe.as_conn pipe.as_conn'.

Lemma interceptor_that_returns_cuts_the_chain_witness :
  let c :=
    drcpclient_wrapper (pipe.over_pipe 0)
      [drcpclient.WithChainUnaryInterceptor
         [drcpclient.recording "interceptor1";
          (fun ctx rpc enc i o cc _ => ret (Some "denied"));
          drcpclient.recording "interceptor3"]] in
  drcpclient.Invoke c tt "TestMethod" tt "input" ""
  = drcpclient.nest_unary (drcpclient.as_drpc_Conn c)
      [drcpclient.recording "interceptor1"]
      (fun ctx rpc enc i o => ret (Some "denied"))
      tt "TestMethod" tt "input" "".
Proof.
  intros c.
  destruct (@interceptor_that_returns_cuts_the_chain
              pipe.types pipe.conn pipe.as_conn pipe.as_conn')
    as [Hnew _].
  apply Hnew with (pre := [drcpclient.recording "interceptor1"])
                  (post := [drcpclient.recording "interceptor3"])
                  (body := fun ctx rpc enc i o cc => ret (Some "denied"));
    reflexivity.
Defined.

Lemma arguments_reach_the_terminal_rewritten_in_order_witness :
  let gfs :=
    [(fun ctx : unit => ctx, fun rpc => ("v2/" ++ rpc)%string);
     (fun ctx : unit => ctx, fun rpc => (rpc ++ "/traced")%string)] in
  drcpclient.Invoke
    (drcpclient_wrapper (pipe.over_pipe 0)
       [drcpclient.WithChainUnaryInterceptor
          (map (fun gf => drcpclient_redirecting (fst gf) (snd gf)) gfs)])
    tt "TestMethod" tt "input" ""
  = drpc_Conn_Invoke (pipe.over_pipe 0) tt "v2/TestMethod/traced" tt
      "input" "".
Proof.
  intros gfs.
  destruct (@arguments_reach_the_terminal_rewritten_in_order
              pipe.types pipe.conn pipe.as_conn pipe.as_conn')
    as [Hnew _].
  apply Hnew with (gfs := gfs); reflexivity.
Defined.

Lemma compiled_unary_chains_compose_witness :
  let of_list l :=
    drcpclient.chainUnaryClientInterceptors
      (drcpclient.apply_options [drcpclient.WithChainUnaryInterceptor l]
         drcpclient.zero_DialOptions) in
  let l1 := [drcpclient.recording "interceptor1"] in
  let l2 :=
    [drcpclient.recording "interceptor2";
     drcpclient.recording "interceptor3"] in
  exists c1 c2 c12,
    drcpclient.chainedUnaryInt (of_list l1) = Some c1
    /\ drcpclient.chainedUnaryInt (of_list l2) = Some c2
    /\ drcpclient.chainedUnaryInt (of_list (l1 ++ l2)) = Some c12
    /\ forall ctx rpc enc i o conn invoker,
         c12 ctx rpc enc i o conn invoker
         = c1 ctx rpc enc i o conn
             (fun ctx rpc enc i o => c2 ctx rpc enc i o conn invoker).
Proof.
  intros of_list l1 l2.
  destruct (@compiled_unary_chains_compose pipe.types) as [Hnew _].
  do 3 eexists. split; [reflexivity|]. split; [reflexivity|].
  split; [reflexivity|].
  apply (Hnew (drcpclient.apply_options
                 [drcpclient.WithChainUnaryInterceptor l1]
                 drcpclient.zero_DialOptions)
              (drcpclient.apply_options
                 [drcpclient.WithChainUnaryInterceptor l2]
                 drcpclient.zero_DialOptions)
              (drcpclient.apply_options
                 [drcpclient.WithChainUnaryInterceptor (l1 ++ l2)]
                 drcpclient.zero_DialOptions));
    reflexivity.
Defined.
End PipeShaping.

(** ** Stream entry, panics and errors *)

Section StreamsPanicsErrors.
Context {T : GoTypes} {D : DrpcConn}.
Context {W : drcpclient.AsConn} {W' : drcpclientconn.AsConn}.

(** [X7] Entry into the stream chain. In drcpclientconn, [NewStream]
    enters every configured stream interceptor once, in configured order,
    and then makes the terminal call with the caller's arguments, whose
    stream, error and resulting world it returns, whatever the unary list
    is. In drcpclient, with [n] unary interceptors configured, [NewStream]
    enters the first [n] stream interceptors in order and then makes the
    terminal call, provided there are at least [n]; that is all of them
    exactly when both lists have the same length. *)
Theorem stream_chain_entry :
  (forall conn (d : drpcinterceptors.DialOptions) names,
     drpcinterceptors.streamInts d = map drpcinterceptors.entering names ->
     forall ctx rpc enc w,
       drcpclientconn.NewStream (drcpclientconn_wrapper conn d) ctx rpc enc w
       = call_NewStream conn ctx rpc enc (record_calls names w))
  /\
  (forall conn (opts : list drcpclient.DialOption) names,
     let d := drcpclient.newDialOptions opts in
     let n := length (drcpclient.unaryInts d) in
     is_nil conn = false ->
     drcpclient.streamInts d = map drcpclient.entering names ->
     n <= length names ->
     forall ctx rpc enc w,
       drcpclient.NewStream (drcpclient_wrapper conn opts) ctx rpc enc w
       = drpc_Conn_NewStream conn ctx rpc enc
           (record_calls (firstn n names) w))
  /\
  (forall conn (opts : list drcpclient.DialOption) names,
     let d := drcpclient.newDialOptions opts in
     is_nil conn = false ->
     drcpclient.streamInts d = map drcpclient.entering names ->
     length (drcpclient.unaryInts d) = length names ->
     forall ctx rpc enc w,
       drcpclient.NewStream (drcpclient_wrapper conn opts) ctx rpc enc w
       = drpc_Conn_NewStream conn ctx rpc enc (record_calls names w)).
Proof.
  split; [|split].
  - intros conn d names Hints ctx rpc enc w.
    apply drcpclientconn_stream_entry_order. exact Hints.
  - intros conn opts names d n Hnil Hints Hle ctx rpc enc w.
    apply (drcpclient_stream_entry_order names opts conn ctx rpc enc w);
      assumption.
  - intros conn opts names d Hnil Hints Hlen ctx rpc enc w.
    rewrite (drcpclient_stream_entry_order names opts conn ctx rpc enc w);
      try assumption.
    + fold d. rewrite Hlen, firstn_all. reflexivity.
    + fold d. lia.
Qed.

(** [X8] A panic of the terminal [Invoke] unwinds through the whole
    chain: no interceptor layer recovers it. With recording interceptors
    configured, [Invoke] panics with the terminal's panic in the world the
    terminal left, in which every [before] and no [after] has been
    recorded. This holds in both packages. *)
Theorem terminal_panic_unwinds_the_chain :
  (forall conn (opts : list drcpclient.DialOption) names
          ctx rpc enc i o (w w1 : World) p,
     is_nil conn = false ->
     drcpclient.unaryInts (drcpclient.newDialOptions opts)
     = map drcpclient.recording names ->
     drpc_Conn_Invoke conn ctx rpc enc i o (record_calls (map before names) w)
     = Panicked p w1 ->
     drcpclient.Invoke (drcpclient_wrapper conn opts) ctx rpc enc i o w
     = Panicked p w1)
  /\
  (forall conn (d : drpcinterceptors.DialOptions) names
          ctx rpc enc i o (w w1 : World) p,
     is_nil conn = false ->
     drpcinterceptors.unaryInts d = map drpcinterceptors.recording names ->
     drpc_Conn_Invoke conn ctx rpc enc i o (record_calls (map before names) w)
     = Panicked p w1 ->
     drcpclientconn.Invoke (drcpclientconn_wrapper conn d) ctx rpc enc i o w
     = Panicked p w1).
Proof.
  split.
  - intros conn opts names ctx rpc enc i o w w1 p Hnil Hints Hterm.
    rewrite (drcpclient_Invoke_recording conn opts names) by assumption.
    rewrite Hterm. reflexivity.
  - intros conn d names ctx rpc enc i o w w1 p Hnil Hints Hterm.
    rewrite (drcpclientconn_Invoke_recording conn d names) by assumption.
    unfold call_Invoke. rewrite Hnil, Hterm. reflexivity.
Qed.

(** [X11] The error of the terminal operation reaches the caller through
    interceptors that propagate it. If the terminal operation fails with
    [E] wherever it is called and every configured interceptor of the
    chain propagates the error of its continuation, then [Invoke] fails
    with [E] in both packages, and so does [NewStream] in drcpclientconn;
    [NewStream] of drcpclient does so when there are no more unary than
    stream interceptors. *)
Theorem terminal_error_reaches_the_caller :
  (forall (E : Err) conn (opts : list drcpclient.DialOption),
     is_nil conn = false ->
     Forall drcpclient.propagates
       (drcpclient.unaryInts (drcpclient.newDialOptions opts)) ->
     drcpclient.fails_with E (drpc_Conn_Invoke conn) ->
     drcpclient.fails_with E
       (drcpclient.Invoke (drcpclient_wrapper conn opts)))
  /\
  (forall (E : Err) conn (opts : list drcpclient.DialOption),
     let d := drcpclient.newDialOptions opts in
     is_nil conn = false ->
     length (drcpclient.unaryInts d) <= length (drcpclient.streamInts d) ->
     Forall drcpclient.stream_propagates (drcpclient.streamInts d) ->
     drcpclient.stream_fails_with E (drpc_Conn_NewStream conn) ->
     drcpclient.stream_fails_with E
       (drcpclient.NewStream (drcpclient_wrapper conn opts)))
  /\
  (forall (E : Err) conn (d : drpcinterceptors.DialOptions),
     is_nil conn = false ->
     Forall drpcinterceptors.propagates (drpcinterceptors.unaryInts d) ->
     (forall ctx rpc enc i o w,
        exists w', drpc_Conn_Invoke conn ctx rpc enc i o w
                   = Returned (Some E) w') ->
     forall ctx rpc enc i o w,
       exists w',
         drcpclientconn.Invoke (drcpclientconn_wrapper conn d)
           ctx rpc enc i o w
         = Returned (Some E) w')
  /\
  (forall (E : Err) conn (d : drpcinterceptors.DialOptions),
     is_nil conn = false ->
     Forall drpcinterceptors.stream_propagates
       (drpcinterceptors.streamInts d) ->
     (forall ctx rpc enc w,
        exists st w', drpc_Conn_NewStream conn ctx rpc enc w
                      = Returned (st, Some E) w') ->
     forall ctx rpc enc w,
       exists st w',
         drcpclientconn.NewStream (drcpclientconn_wrapper conn d)
           ctx rpc enc w
         = Returned (st, Some E) w').
Proof.
  split; [|split; [|split]].
  - intros E conn opts. apply drcpclient_Invoke_propagates.
  - intros E conn opts. apply drcpclient_NewStream_propagates.
  - intros E conn d. apply drcpclientconn_Invoke_propagates.
  - intros E conn d. apply drcpclientconn_NewStream_propagates.
Qed.
End StreamsPanicsErrors.

(** ** A wrapper around a wrapper *)

Section Rewrapping.
Context {T : GoTypes} {D : DrpcConn} {W : drcpclient.AsConn}.

(** [X9] Wrapping a wrapper nests the chains. Let the connection handed
    to an outer drcpclient wrapper be an inner wrapper, so that [Invoke] on
    its handle is the inner wrapper's [Invoke]. With recording interceptors
    on both, one [Invoke] on the outer wrapper records the [before] of the
    outer interceptors, then of the inner ones, makes the terminal call on
    the innermost connection, and records the [after] of the inner
    interceptors in reverse, then of the outer ones in reverse; it returns
    what the terminal call returned. *)
Theorem rewrapped_connection_nests_the_chains
    (raw : drpc_Conn) (inner_opts outer_opts : list drcpclient.DialOption)
    (inner_names outer_names : list string)
    ctx rpc enc i o (w w1 : World) (e : error) :
  let inner := drcpclient_wrapper raw inner_opts in
  let outer :=
    drcpclient_wrapper (drcpclient.as_drpc_Conn inner) outer_opts in
  is_nil raw = false ->
  is_nil (drcpclient.as_drpc_Conn inner) = false ->
  (forall ctx rpc enc i o,
     drpc_Conn_Invoke (drcpclient.as_drpc_Conn inner) ctx rpc enc i o
     = drcpclient.Invoke inner ctx rpc enc i o) ->
  drcpclient.unaryInts (drcpclient.newDialOptions inner_opts)
  = map drcpclient.recording inner_names ->
  drcpclient.unaryInts (drcpclient.newDialOptions outer_opts)
  = map drcpclient.recording outer_names ->
  drpc_Conn_Invoke raw ctx rpc enc i o
    (record_calls (map before (outer_names ++ inner_names)) w)
  = Returned e w1 ->
  drcpclient.Invoke outer ctx rpc enc i o w
  = Returned e
      (record_calls (map after (rev (outer_names ++ inner_names))) w1).
Proof.
  intros inner outer Hraw Hinner Hdispatch Hin Hout Hterm.
  subst outer.
  rewrite (drcpclient_Invoke_recording _ outer_opts outer_names)
    by assumption.
  rewrite Hdispatch. subst inner.
  rewrite (drcpclient_Invoke_recording raw inner_opts inner_names)
    by assumption.
  rewrite record_calls_app, <- map_app, Hterm.
  rewrite record_calls_app, <- map_app, rev_app_distr. reflexivity.
Qed.
End Rewrapping.

Section PipeRewrapping.
#[local] Existing Instances pipe.types layered.conn pipe.as_conn pipe.as_conn'.

Lemma rewrapped_connection_nests_the_chains_witness :
  drcpclient.Invoke
    (drcpclient_wrapper
       (drcpclient.as_drpc_Conn
          (drcpclient_wrapper (pipe.over_pipe 0) layered.inner_opts))
       [drcpclient.WithChainUnaryInterceptor
          [drcpclient.recording "outer1"]])
    tt "TestMethod" tt "input" "" pipe.empty_world
  = Returned None
      (record_calls ["inner2_after"; "inner1_after"; "outer1_after"]
         (pipe.served "TestMethod"
            (record_calls ["outer1_before"; "inner1_before"; "inner2_before"]
               pipe.empty_world))).
Proof.
  apply (@rewrapped_connection_nests_the_chains
           pipe.types layered.conn pipe.as_conn
           (pipe.over_pipe 0) layered.inner_opts
           [drcpclient.WithChainUnaryInterceptor
              [drcpclient.recording "outer1"]]
           ["inner1"; "inner2"] ["outer1"]
           tt "TestMethod" tt "input" "" pipe.empty_world);
    reflexivity.
Defined.

Lemma terminal_panic_unwinds_the_chain_witness :
  drcpclient.Invoke
    (drcpclient_wrapper (pipe.client_conn pipe.nil_handle)
       [drcpclient.WithChainUnaryInterceptor
          [drcpclient.recording "interceptor1";
           drcpclient.recording "interceptor2"]])
    tt "TestMethod" tt "input" "" pipe.empty_world
  = Panicked nil_dereference
      (record_calls ["interceptor1_before"; "interceptor2_before"]
         pipe.empty_world).
Proof.
  destruct (@terminal_panic_unwinds_the_chain
              pipe.types layered.conn pipe.as_conn pipe.as_conn')
    as [Hnew _].
  apply Hnew with (names := ["interceptor1"; "interceptor2"]);
    reflexivity.
Defined.
End PipeRewrapping.

(** ** The encoding of the tests *)

Section TestEncoding.
Import testEncoding.

(** [X10] The test encoding round-trips. Marshalling the string behind one
    pointer and unmarshalling the bytes into another makes the second
    variable equal to the first and changes no other variable, with nil
    errors; unmarshalling bytes into a variable and marshalling it gives
    the same bytes back. On a message that is not a pointer to a string
    both functions panic, on a nil pointer with a nil dereference. *)
Theorem testEncoding_round_trip :
  (forall (p q : nat) (h : variables),
     exists buf h',
       Marshal (string_pointer (Some p)) h = inr (buf, None)
       /\ Unmarshal buf (string_pointer (Some q)) h = inr (h', None)
       /\ h' q = h p
       /\ forall r, r <> q -> h' r = h r)
  /\
  (forall (buf : list Byte.byte) (q : nat) (h : variables),
     exists h',
       Unmarshal buf (string_pointer (Some q)) h = inr (h', None)
       /\ Marshal (string_pointer (Some q)) h' = inr (buf, None))
  /\
  (forall (buf : list Byte.byte) (h : variables),
     Marshal (string_pointer None) h = inl nil_dereference
     /\ Unmarshal buf (string_pointer None) h = inl nil_dereference
     /\ (exists p, Marshal other_value h = inl p)
     /\ (exists p, Unmarshal buf other_value h = inl p)).
Proof.
  split; [|split].
  - intros p q h.
    exists (list_byte_of_string (h p)).
    exists (assign h q (string_of_list_byte (list_byte_of_string (h p)))).
    repeat split.
    + unfold assign. rewrite Nat.eqb_refl.
      apply string_of_list_byte_of_string.
    + intros r Hr. unfold assign.
      apply Nat.eqb_neq in Hr. rewrite Hr. reflexivity.
  - intros buf q h. exists (assign h q (string_of_list_byte buf)). split.
    + reflexivity.
    + unfold Marshal, string_variable, assign. rewrite Nat.eqb_refl.
      rewrite list_byte_of_string_of_list_byte. reflexivity.
  - intros buf h. repeat split; eexists; reflexivity.
Qed.
End TestEncoding.

Section PipeStreamsErrors.
#[local] Existing Instances pipe.types pipe.conn pipe.as_conn pipe.as_conn'.

Lemma stream_chain_entry_witness :
  drcpclientconn.NewStream
    (drcpclientconn_wrapper (pipe.over_pipe 0)
       (drpcinterceptors.NewDialOptions
          [drpcinterceptors.WithChainStreamInterceptor
             [drpcinterceptors.entering "s1";
              drpcinterceptors.entering "s2"]]))
    tt "Stream" tt pipe.empty_world
  = call_NewStream (pipe.over_pipe 0) tt "Stream" tt
      (record_calls ["s1"; "s2"] pipe.empty_world)
  /\
  drcpclient.NewStream
    (drcpclient_wrapper (pipe.over_pipe 0)
       [drcpclient.WithChainUnaryInterceptor
          [drcpclient.recording "interceptor1"];
        drcpclient.WithChainStreamInterceptor
          [drcpclient.entering "s1"; drcpclient.entering "s2"]])
    tt "Stream" tt pipe.empty_world
  = drpc_Conn_NewStream (pipe.over_pipe 0) tt "Stream" tt
      (record_calls ["s1"] pipe.empty_world).
Proof.
  destruct (@stream_chain_entry
              pipe.types pipe.conn pipe.as_conn pipe.as_conn')
    as (Hold & Hnew & _).
  split.
  - apply Hold with (names := ["s1"; "s2"]). reflexivity.
  - apply Hnew with (names := ["s1"; "s2"]);
      [reflexivity | reflexivity | simpl; lia].
Defined.

Lemma terminal_error_reaches_the_caller_witness :
  drcpclient.fails_with "EOF"
    (drcpclient.Invoke
       (drcpclient_wrapper (pipe.over_pipe 1)
          [drcpclient.WithChainUnaryInterceptor
             [drcpclient.recording "interceptor1";
              drcpclient.recording "interceptor2"]])).
Proof.
  destruct (@terminal_error_reaches_the_caller
              pipe.types pipe.conn pipe.as_conn pipe.as_conn')
    as (Hnew & _).
  apply Hnew.
  - reflexivity.
  - simpl. repeat constructor; apply drcpclient_recording_propagates.
  - intros ctx rpc enc i o w. eexists. reflexivity.
Defined.
End PipeStreamsErrors.

(** ** The layers around a single interceptor *)

Section Layers.
Context {T : GoTypes}.

(** With the probe that does nothing, the marked loops are the loops of
    the packages. *)
Lemma frames_drcpclient_unary_loop_silent ints conn k chained :
  frames.drcpclient_unary_loop frames.silent ints conn k chained
  = drcpclient.unary_loop ints conn k chained.
Proof.
  revert chained. induction k as [|i IH]; intros chained.
  - reflexivity.
  - cbn [frames.drcpclient_unary_loop drcpclient.unary_loop].
    destruct (index ints i) as [p|interceptor]; [reflexivity|].
    exact (IH (fun ctx rpc enc i o => interceptor ctx rpc enc i o conn chained)).
Qed.

Lemma frames_drpcinterceptors_unary_loop_silent ints conn k chained :
  frames.drpcinterceptors_unary_loop frames.silent ints conn k chained
  = drpcinterceptors.unary_loop ints conn k chained.
Proof.
  revert chained. induction k as [|i IH]; intros chained.
  - reflexivity.
  - cbn [frames.drpcinterceptors_unary_loop drpcinterceptors.unary_loop].
    destruct (index ints i) as [p|interceptor]; [reflexivity|].
    exact (IH (fun ctx method i o enc =>
                 interceptor ctx method i o conn enc chained)).
Qed.

(** With the probe that does nothing, the marked compiled chain of
    drcpclient makes the calls of the compiled chain of the package. *)
Lemma frames_drcpclient_erasure (d : drcpclient.DialOptions) :
  exists marked chain,
    drcpclient.chainedUnaryInt
      (frames.drcpclient_chainUnaryClientInterceptors frames.silent d)
    = Some marked
    /\ drcpclient.chainedUnaryInt (drcpclient.chainUnaryClientInterceptors d)
       = Some chain
    /\ forall ctx rpc enc i o conn invoker,
         marked ctx rpc enc i o conn invoker
         = chain ctx rpc enc i o conn invoker.
Proof.
  do 2 eexists. split; [reflexivity|]. split; [reflexivity|].
  intros ctx rpc enc i o conn invoker.
  change (match
            frames.drcpclient_unary_loop frames.silent
              (drcpclient.unaryInts d) conn
              (length (drcpclient.unaryInts d)) invoker
          with
          | inl p => throw p
          | inr chained => chained ctx rpc enc i o
          end
          = match
              drcpclient.unary_loop (drcpclient.unaryInts d) conn
                (length (drcpclient.unaryInts d)) invoker
            with
            | inl p => throw p
            | inr chained => chained ctx rpc enc i o
            end).
  rewrite frames_drcpclient_unary_loop_silent. reflexivity.
Qed.

(** The same for drpcinterceptors, where the field may be nil. *)
Lemma frames_drpcinterceptors_erasure (d : drpcinterceptors.DialOptions) :
  match
    drpcinterceptors.UnaryInt
      (frames.drpcinterceptors_ChainUnaryClientInterceptors frames.silent d),
    drpcinterceptors.UnaryInt
      (drpcinterceptors.ChainUnaryClientInterceptors d)
  with
  | None, None => True
  | Some marked, Some chain =>
      forall ctx method i o conn enc invoker,
        marked ctx method i o conn enc invoker
        = chain ctx method i o conn enc invoker
  | _, _ => False
  end.
Proof.
  cbn [frames.drpcinterceptors_ChainUnaryClientInterceptors
       drpcinterceptors.ChainUnaryClientInterceptors
       drpcinterceptors.UnaryInt].
  destruct (drpcinterceptors.unaryInts d) as [|a [|b l]].
  - exact I.
  - intros ctx method i o conn enc invoker. reflexivity.
  - intros ctx method i o conn enc invoker.
    change (match
              frames.drpcinterceptors_unary_loop frames.silent
                (a :: b :: l) conn (length (a :: b :: l)) invoker
            with
            | inl p => throw p
            | inr chained => chained ctx method i o enc
            end
            = match
                drpcinterceptors.unary_loop (a :: b :: l) conn
                  (length (a :: b :: l)) invoker
              with
              | inl p => throw p
              | inr chained => chained ctx method i o enc
              end).
    rewrite frames_drpcinterceptors_unary_loop_silent. reflexivity.
Qed.

(** [C7] With exactly one unary interceptor configured, the compiled
    chain of drpcinterceptors is that interceptor itself: calling it
    enters no func literal of the package. The compiled chain of drcpclient
    is not: it is the func literal [chainUnaryClientInterceptors.func1],
    and every call of it enters that literal, then the literal
    [chainUnaryClientInterceptors.func1.1] it builds around the
    interceptor, and only then the interceptor, which is handed the same
    handle and the terminal invoker itself. *)
Theorem single_interceptor_is_wrapped_in_drcpclient
    (probe : string -> M unit)
    (only : drcpclient.UnaryClientInterceptor)
    (only' : drpcinterceptors.UnaryClientInterceptor) :
  (exists chain,
     drcpclient.chainedUnaryInt
       (frames.drcpclient_chainUnaryClientInterceptors probe
          (drcpclient.apply_options
             [drcpclient.WithChainUnaryInterceptor [only]]
             drcpclient.zero_DialOptions))
     = Some chain
     /\ forall ctx rpc enc i o conn invoker,
          chain ctx rpc enc i o conn invoker
          = (probe "chainUnaryClientInterceptors.func1" ;;;
             probe "chainUnaryClientInterceptors.func1.1" ;;;
             only ctx rpc enc i o conn invoker))
  /\
  drpcinterceptors.UnaryInt
    (frames.drpcinterceptors_ChainUnaryClientInterceptors probe
       (drpcinterceptors.NewDialOptions
          [drpcinterceptors.WithChainUnaryInterceptor [only']]))
  = Some only'.
Proof.
  split.
  - eexists. split.
    + reflexivity.
    + intros ctx rpc enc i o conn invoker. reflexivity.
  - reflexivity.
Qed.
End Layers.

Section PipeLayers.
#[local] Existing Instances pipe.types pipe.conn pipe.as_conn pipe.as_conn'.

(** Over a pipe, with a probe that records the literal it is run for: one
    call of the compiled chain of drcpclient for [interceptor1] records
    both literals before the interceptor records anything, where a call of
    the interceptor itself records only its own two entries. *)
Lemma drcpclient_layers_over_pipe :
  let d :=
    frames.drcpclient_chainUnaryClientInterceptors
      (fun literal => modify (record_call literal))
      (drcpclient.apply_options
         [drcpclient.WithChainUnaryInterceptor
            [drcpclient.recording "interceptor1"]]
         drcpclient.zero_DialOptions) in
  (exists chain,
     drcpclient.chainedUnaryInt d = Some chain
     /\ chain tt "TestMethod" tt "input" ""
          (pipe.client_conn (pipe.over_pipe 0))
          (drpc_Conn_Invoke (pipe.over_pipe 0)) pipe.empty_world
        = Returned None
            (record_calls ["interceptor1_after"]
               (pipe.served "TestMethod"
                  (record_calls
                     ["chainUnaryClientInterceptors.func1";
                      "chainUnaryClientInterceptors.func1.1";
                      "interceptor1_before"]
                     pipe.empty_world))))
  /\
  drcpclient.recording "interceptor1" tt "TestMethod" tt "input" ""
    (pipe.client_conn (pipe.over_pipe 0))
    (drpc_Conn_Invoke (pipe.over_pipe 0)) pipe.empty_world
  = Returned None
      (record_calls ["interceptor1_after"]
         (pipe.served "TestMethod"
            (record_calls ["interceptor1_before"] pipe.empty_world))).
Proof.
  intros d. split.
  - eexists. split; reflexivity.
  - reflexivity.
Qed.
End PipeLayers.
